(** * The transposition table of src/tt.cpp

    A shallow embedding of [TTEntry::save], [TranspositionTable::resize],
    [TranspositionTable::clear], [TranspositionTable::probe] and
    [TranspositionTable::hashfull], followed by the properties of the
    specification that concern them.

    Conventions.
    - Machine integers are [Z]; every narrowing cast of the source is written
      out ([u8], [u16], [i8], [i16], [size_t]).  Values of type [int]
      ([Value], [Depth], [Move], [Bound]) are mathematical integers: the only
      [int] arithmetic of the file is [d / ONE_PLY] and [depth8 - 4], which
      cannot leave the range of [int].
    - The table is the list of its entries; [table[i]] past the end of the
      allocation is undefined in C++ and is the outcome [OutOfBounds] here.
    - [tt.h], [types.h], [misc.h], [thread.h] and [uci.h] are not part of the
      sources at hand: what [tt.cpp] takes from them is a [Variable] of the
      section, or is modelled from the specification where the specification
      fixes it (and then says so). *)

From Stdlib Require Import ZArith Lia Bool List.
From stdpp Require Import base numbers list strings.

Local Open Scope Z_scope.

(** ** Fixed-width integers *)

Definition u8 (x : Z) : Z := x mod 2 ^ 8.
Definition u16 (x : Z) : Z := x mod 2 ^ 16.
Definition i8 (x : Z) : Z := (x + 2 ^ 7) mod 2 ^ 8 - 2 ^ 7.
Definition i16 (x : Z) : Z := (x + 2 ^ 15) mod 2 ^ 16 - 2 ^ 15.

(** ** Outcomes of a call

    A call returns ([Done]), leaves through [exit] ([Exited]), stops on a
    failed [assert] ([AssertionFailed]), or touches memory outside the table
    ([OutOfBounds]). *)

Inductive Result (A : Type) : Type :=
| Done (a : A)
| Exited (status : Z)
| AssertionFailed
| OutOfBounds.

Arguments Done {A} a.
Arguments Exited {A} status.
Arguments AssertionFailed {A}.
Arguments OutOfBounds {A}.

#[global] Instance Result_ret : MRet Result := fun A a => Done a.

#[global] Instance Result_bind : MBind Result := fun A B f r =>
  match r with
  | Done a => f a
  | Exited s => Exited s
  | AssertionFailed => AssertionFailed
  | OutOfBounds => OutOfBounds
  end.

(** What a call does besides computing: the calls into the collaborators
    ([Threads.main()->wait_for_search_finished()], [free], [malloc],
    [WinProcGroup::bindThisThread], [std::memset] run by a worker thread), the
    text sent to [std::cerr], and [exit]. *)

Inductive CerrItem : Type :=
| Text (s : string)
| Number (n : Z)
| Endl.

Inductive Event : Type :=
| EvWaitForSearchFinished
| EvFree
| EvMalloc (bytes : Z)
| EvCerr (items : list CerrItem)
| EvExit (status : Z)
| EvBindThisThread (idx : Z)
| EvMemset (start len : Z)
| EvJoin (idx : Z).

(** A computation with effects: the events it caused, in order, and its
    outcome. *)
Record M (A : Type) : Type := mkM {
  trace : list Event;
  outcome : Result A
}.

Arguments mkM {A} trace outcome.
Arguments trace {A} m.
Arguments outcome {A} m.

Definition lift {A : Type} (r : Result A) : M A := mkM [] r.
Definition emit (e : Event) : M unit := mkM [e] (Done tt).

#[global] Instance M_ret : MRet M := fun A a => mkM [] (Done a).

#[global] Instance M_bind : MBind M := fun A B f m =>
  match outcome m with
  | Done a => mkM (trace m ++ trace (f a)) (outcome (f a))
  | Exited s => mkM (trace m) (Exited s)
  | AssertionFailed => mkM (trace m) AssertionFailed
  | OutOfBounds => mkM (trace m) OutOfBounds
  end.

(** Running the sequencing of [Result] without touching the arithmetic. *)
Ltac run_result :=
  cbv beta iota delta [mbind mret Result_bind Result_ret].

(** Deciding a closed comparison, or a conjunction of them, by evaluation. *)
Ltac by_evaluation :=
  vm_compute; repeat split; solve [reflexivity | discriminate].

(** [EXIT_FAILURE] of <cstdlib>. *)
Definition EXIT_FAILURE : Z := 1.

(** ** Data model *)

(** Modelled from the spec: [struct TTEntry] is declared in tt.h, which is
    absent.  The fields are the five that tt.cpp reads and writes, with the
    widths of the specification's data model: tag 16 bits, move 16 bits, value
    16 bits signed, genBound 8 bits, depth 8 bits signed. *)
Record TTEntry : Type := mkTTEntry {
  key16 : Z;
  move16 : Z;
  value16 : Z;
  genBound8 : Z;
  depth8 : Z
}.

(** The entry [std::memset] leaves behind: every byte zero. *)
Definition zero_entry : TTEntry := mkTTEntry 0 0 0 0 0.

(** Modelled from the spec: the accessor [bound()] of tt.h, which is absent:
    the low 2 bits of genBound are the bound kind. *)
Definition bound (e : TTEntry) : Z := Z.land (genBound8 e) 3.

(** The members of [class TranspositionTable] that tt.cpp uses.  [table] is
    the array starting at the aligned pointer; [mem] itself only serves
    [free]. *)
Record TranspositionTable : Type := mkTT {
  entryCount : Z;
  table : list TTEntry;
  generation8 : Z
}.

Definition with_table (t : TranspositionTable) (tbl : list TTEntry) :
  TranspositionTable :=
  mkTT (entryCount t) tbl (generation8 t).

(** ** Data to evaluate the model on *)

(** Modelled from the spec: the addressing [entry(key)] of tt.h, which is
    absent, as the multiply-high-bits mapping the specification suggests: the
    low 32 bits of the key times the number of entries, divided by 2^32. *)
Definition mulhi_entry (n key : Z) : nat :=
  Z.to_nat (key `mod` 2 ^ 32 * n / 2 ^ 32).

(** A zeroed table of [n] entries in generation [g]. *)
Definition zeroed_table (n : nat) (g : Z) : TranspositionTable :=
  mkTT (Z.of_nat n) (replicate n zero_entry) g.

(** The fingerprint of the scenario of the specification; [mulhi_entry] maps
    it to the entry 2 of a table of 4, and to the entry 604 of a table of
    1000. *)
Definition sample_key : Z := 0x123456789ABCDEF0.

(** A fingerprint with the same low half and another tag. *)
Definition other_key : Z := 0x432156789ABCDEF0.

(** An entry for [sample_key]: tag 0x1234, move 77, value 100, generation 4
    with the bound bits 3, depth 10. *)
Definition sample_entry : TTEntry := mkTTEntry 0x1234 77 100 7 10.

Definition sample_table : TranspositionTable :=
  mkTT 4 [zero_entry; zero_entry; sample_entry; zero_entry] 4.

(** A table of 1000 entries that are all in use. *)
Definition full_table : TranspositionTable :=
  mkTT 1000 (replicate 1000 sample_entry) 4.

Section TT.

(** From types.h. *)
Variable ONE_PLY : Z.
Variable BOUND_EXACT : Z.

(** Whether the translation unit is compiled with NDEBUG, which turns
    [assert] into nothing. *)
Variable NDEBUG : bool.

Definition assert (c : bool) : Result unit :=
  if NDEBUG || c then Done tt else AssertionFailed.

(** An assertion lets the call through. *)
Definition asserted (c : bool) : Prop := NDEBUG || c = true.

(** *** TTEntry::save (tt.cpp 34-52) *)

Definition save_assertion (d : Z) : bool := d `quot` ONE_PLY * ONE_PLY =? d.

(** The test of line 39. *)
Definition replaces_move (e : TTEntry) (k m : Z) : bool :=
  negb (m =? 0) || negb (k ≫ 48 =? key16 e).

(** The test of lines 43-45. *)
Definition admits (e : TTEntry) (k b d : Z) : bool :=
  negb (k ≫ 48 =? key16 e)
  || (d `quot` ONE_PLY >? depth8 e - 4)
  || (b =? BOUND_EXACT).

(** [TT_generation8] is the field of the global [TT] that line 49 reads. *)
Definition save (TT_generation8 : Z) (e : TTEntry) (k v b d m : Z) :
  Result TTEntry :=
  _ ← assert (save_assertion d);
  let e1 :=
    if replaces_move e k m
    then mkTTEntry (key16 e) (u16 m) (value16 e) (genBound8 e) (depth8 e)
    else e in
  let e2 :=
    if admits e1 k b d
    then mkTTEntry (u16 (k ≫ 48)) (move16 e1) (i16 v)
                   (u8 (Z.lor TT_generation8 b)) (i8 (d `quot` ONE_PLY))
    else e1 in
  Done e2.

(** [tte->save(...)] through the pointer [probe] returned: the entry with
    index [i] of the table of the global [TT]. *)
Definition save_at (t : TranspositionTable) (i : nat) (k v b d m : Z) :
  Result TranspositionTable :=
  match table t !! i with
  | None => OutOfBounds
  | Some e =>
      e' ← save (generation8 t) e k v b d m;
      mret (with_table t (<[i := e']> (table t)))
  end.

(** Modelled from the spec: the accessors [value()], [depth()] and [move()] of
    tt.h, which is absent: the stored score, the stored number of whole plies
    as a depth, and the stored move. *)
Definition value (e : TTEntry) : Z := value16 e.
Definition depth (e : TTEntry) : Z := depth8 e * ONE_PLY.
Definition move (e : TTEntry) : Z := move16 e.

(** *** TranspositionTable::probe (tt.cpp 117-128) *)

(** From tt.h: [entry(key)], the address of the entry a key is mapped to, as
    an index into [table]; it depends on the key and on the size of the table
    only. *)
Variable entry : Z -> Z -> nat.

(** The pointer is the index; both results of the source are returned with
    the table, which [probe] writes through the pointer. *)
Definition probe (t : TranspositionTable) (key : Z) :
  Result (TranspositionTable * (nat * bool)) :=
  let i := entry (entryCount t) key in
  match table t !! i with
  | None => OutOfBounds
  | Some tte =>
      let key16' := u16 (key ≫ 48) in
      if (key16 tte =? 0) || (key16 tte =? key16') then
        let tte' :=
          mkTTEntry (key16 tte) (move16 tte) (value16 tte)
                    (u8 (Z.lor (generation8 t) (bound tte))) (depth8 tte) in
        Done (with_table t (<[i := tte']> (table t)),
              (i, negb (key16 tte' =? 0)))
      else Done (t, (i, false))
  end.

(** *** TranspositionTable::hashfull (tt.cpp 134-141) *)

(** The loop from [i] on, with [n] iterations left. *)
Fixpoint hashfull_loop (t : TranspositionTable) (i n : nat) (cnt : Z) :
  Result Z :=
  match n with
  | O => Done cnt
  | S n' =>
      match table t !! i with
      | None => OutOfBounds
      | Some e =>
          hashfull_loop t (S i) n'
            (cnt + Z.b2z (Z.land (genBound8 e) 252 =? generation8 t))
      end
  end.

Definition hashfull (t : TranspositionTable) : Result Z :=
  hashfull_loop t 0 1000 0.

(** *** TranspositionTable::clear (tt.cpp 84-108) *)

(** The width of [size_t], and its wrap-around. *)
Variable size_bits : Z.

Definition size_t (x : Z) : Z := x mod 2 ^ size_bits.

(** [Options["Threads"]], read as an integer. *)
Variable Threads : Z.

(** Lines 97-100: [start] and [len] of the worker [idx], for a table of [n]
    entries. *)
Definition clear_stride (n : Z) : Z := size_t (n / Threads).

Definition clear_start (n idx : Z) : Z := size_t (clear_stride n * idx).

Definition clear_len (n idx : Z) : Z :=
  if negb (idx =? Threads - 1) then clear_stride n
  else size_t (n - clear_start n idx).

(** [std::memset(&table[start], 0, len * sizeof(TTEntry))]. *)
Definition memset_zero (tbl : list TTEntry) (start len : Z) :
  Result (list TTEntry) :=
  if (0 <=? start) && (0 <=? len) && (start + len <=? Z.of_nat (length tbl))
  then Done (take (Z.to_nat start) tbl
             ++ replicate (Z.to_nat len) zero_entry
             ++ drop (Z.to_nat (start + len)) tbl)
  else OutOfBounds.

(** The body of the worker thread [idx]. *)
Definition clear_worker (n idx : Z) (tbl : list TTEntry) : M (list TTEntry) :=
  _ ← (if Threads >? 8 then emit (EvBindThisThread idx) else mret tt);
  _ ← emit (EvMemset (clear_start n idx) (clear_len n idx));
  lift (memset_zero tbl (clear_start n idx) (clear_len n idx)).

(** The workers run concurrently in the source.  All of them store zero bytes
    only, so the memory they leave does not depend on the schedule; here they
    run one after the other, in the order of their creation. *)
Fixpoint clear_workers (n : Z) (idxs : list Z) (tbl : list TTEntry) :
  M (list TTEntry) :=
  match idxs with
  | [] => mret tbl
  | idx :: rest =>
      tbl' ← clear_worker n idx tbl;
      clear_workers n rest tbl'
  end.

Fixpoint join_all (idxs : list Z) : M unit :=
  match idxs with
  | [] => mret tt
  | idx :: rest => _ ← emit (EvJoin idx); join_all rest
  end.

(** [for (size_t idx = 0; idx < Options["Threads"]; ++idx)]. *)
Definition thread_indices : list Z := seqZ 0 Threads.

Definition clear (t : TranspositionTable) : M TranspositionTable :=
  tbl ← clear_workers (entryCount t) thread_indices (table t);
  _ ← join_all thread_indices;
  mret (with_table t tbl).

(** *** TranspositionTable::resize (tt.cpp 59-78) *)

(** From tt.h: [sizeof(TTEntry)] and [CacheLineSize]. *)
Variable sizeof_TTEntry : Z.
Variable CacheLineSize : Z.

(** Whether [malloc] of that many bytes returns a block, and what the fresh
    block holds, cell by cell. *)
Variable malloc_succeeds : Z -> bool.
Variable malloc_contents : nat -> TTEntry.

(** Line 64. *)
Definition resize_entryCount (mbSize : Z) : Z :=
  size_t (size_t (size_t (mbSize * 1024) * 1024) / sizeof_TTEntry).

(** The argument of [malloc], line 67. *)
Definition resize_bytes (mbSize : Z) : Z :=
  size_t (size_t (size_t (resize_entryCount mbSize * sizeof_TTEntry)
                  + CacheLineSize) - 1).

Definition exit {A : Type} (status : Z) : M A :=
  mkM [EvExit status] (Exited status).

Definition resize (t : TranspositionTable) (mbSize : Z) :
  M TranspositionTable :=
  _ ← emit EvWaitForSearchFinished;
  _ ← lift (assert (CacheLineSize `mod` sizeof_TTEntry =? 0));
  let entryCount' := resize_entryCount mbSize in
  _ ← emit EvFree;
  _ ← emit (EvMalloc (resize_bytes mbSize));
  if negb (malloc_succeeds (resize_bytes mbSize)) then
    _ ← emit (EvCerr [Text "Failed to allocate "; Number mbSize;
                      Text "MB for transposition table."; Endl]);
    exit EXIT_FAILURE
  else
    clear (mkTT entryCount'
                (malloc_contents <$> seq 0 (Z.to_nat entryCount'))
                (generation8 t)).

(** *** The operations of the table, as its callers see them *)

Inductive Operation : Type :=
| OpSave (i : nat) (k v b d m : Z)
| OpProbe (key : Z)
| OpHashfull
| OpClear
| OpResize (mbSize : Z).

Inductive Answer : Type :=
| AnsVoid
| AnsProbe (tte : nat) (found : bool)
| AnsInt (n : Z).

Definition exec (op : Operation) (t : TranspositionTable) :
  M (TranspositionTable * Answer) :=
  match op with
  | OpSave i k v b d m =>
      t' ← lift (save_at t i k v b d m); mret (t', AnsVoid)
  | OpProbe key =>
      '(t', (i, found)) ← lift (probe t key); mret (t', AnsProbe i found)
  | OpHashfull =>
      n ← lift (hashfull t); mret (t, AnsInt n)
  | OpClear =>
      t' ← clear t; mret (t', AnsVoid)
  | OpResize mbSize =>
      t' ← resize t mbSize; mret (t', AnsVoid)
  end.

(** ** The statements of the specification, as predicates *)

(** [save] on the entry [probe] returned, then [probe] again: what the second
    [probe] reports, and the entry it returns. *)
Definition save_then_probe (t : TranspositionTable) (k v b d m : Z) :
  Result (bool * TTEntry) :=
  '(t1, (tte, _)) ← probe t k;
  t2 ← save_at t1 tte k v b d m;
  '(t3, (tte', found)) ← probe t2 k;
  match table t3 !! tte' with
  | Some e => Done (found, e)
  | None => OutOfBounds
  end.

(** The second [probe] finds the entry, holding what was saved. *)
Definition roundtrip (t : TranspositionTable) (k v d m : Z) : Prop :=
  exists e, save_then_probe t k v BOUND_EXACT d m = Done (true, e)
            /\ value e = v /\ depth e = d /\ move e = m.

(** The score part of an entry is as it was. *)
Definition keeps_score (e e' : TTEntry) : Prop :=
  value16 e' = value16 e /\ depth8 e' = depth8 e /\ genBound8 e' = genBound8 e.

(** The score part of an entry is the one of the call. *)
Definition takes_score (TT_generation8 : Z) (e' : TTEntry) (k v b d : Z) : Prop :=
  key16 e' = u16 (k ≫ 48) /\ value16 e' = i16 v
  /\ depth8 e' = i8 (d `quot` ONE_PLY)
  /\ genBound8 e' = u8 (Z.lor TT_generation8 b).

(** The entry a hit, or the probe of an empty slot, leaves: line 123. *)
Definition refreshed (g : Z) (e : TTEntry) : TTEntry :=
  mkTTEntry (key16 e) (move16 e) (value16 e) (u8 (Z.lor g (bound e)))
            (depth8 e).

(** From tt.h: the number of entries of a cluster. *)
Variable ClusterSize : nat.









(** What one entry adds to the count of [hashfull], and the count over a
    list of entries. *)
Definition counted (g : Z) (e : TTEntry) : Z :=
  Z.b2z (Z.land (genBound8 e) 252 =? g).

Fixpoint occupancy (g : Z) (l : list TTEntry) : Z :=
  match l with
  | [] => 0
  | e :: l' => counted g e + occupancy g l'
  end.

(** The entries the worker [idx] zeroes, for a table of [n] entries. *)
Definition in_slice (n idx i : Z) : Prop :=
  clear_start n idx <= i < clear_start n idx + clear_len n idx.

(** Where the zeroes reach once the workers before [lo] have run. *)
Definition zeroed_to (n lo : Z) : Z :=
  if lo =? Threads then n else n / Threads * lo.

(** The events that report an error or end the process. *)
Definition noisy (e : Event) : bool :=
  match e with
  | EvCerr _ | EvExit _ => true
  | _ => false
  end.

(** A computation that neither writes to [std::cerr] nor calls [exit]. *)
Definition quiet {A : Type} (m : M A) : Prop :=
  Forall (fun e => noisy e = false) (trace m)
  /\ forall s, outcome m <> Exited s.

(** What a caller owes an operation: the pointer handed to [save] is one
    [probe] returned and its assertion holds, the addressing stays inside the
    table, [hashfull] finds the 1000 entries it reads, [clear] runs on a table
    that has [entryCount] entries with at least one worker thread, and
    [resize] gets its memory. *)
Definition within_contract (op : Operation) (t : TranspositionTable) : Prop :=
  match op with
  | OpSave i k v b d m =>
      (i < length (table t))%nat /\ asserted (save_assertion d)
  | OpProbe key => (entry (entryCount t) key < length (table t))%nat
  | OpHashfull => (1000 <= length (table t))%nat
  | OpClear =>
      1 <= Threads /\ Z.of_nat (length (table t)) = entryCount t
      /\ entryCount t < 2 ^ size_bits
  | OpResize mbSize =>
      1 <= Threads /\ 0 <= size_bits
      /\ asserted (CacheLineSize `mod` sizeof_TTEntry =? 0)
      /\ malloc_succeeds (resize_bytes mbSize) = true
  end.

(** What [save] stores when it overwrites a slot that held another
    position: lines 40 and 47-50. *)
Definition written (g k v b d m : Z) : TTEntry :=
  mkTTEntry (u16 (k ≫ 48)) (u16 m) (i16 v) (u8 (Z.lor g b))
            (i8 (d `quot` ONE_PLY)).

(** The entry [probe] leaves in the slot it looked at, and what it reports
    for it. *)
Definition probed (g key : Z) (e : TTEntry) : TTEntry :=
  if (key16 e =? 0) || (key16 e =? u16 (key ≫ 48)) then refreshed g e else e.

Definition hit (key : Z) (e : TTEntry) : bool :=
  negb (key16 e =? 0) && (key16 e =? u16 (key ≫ 48)).

(** What the worker [idx] does, and what [clear] does when every worker
    stays inside the table: lines 88-107. *)
Definition worker_events (n idx : Z) : list Event :=
  (if Threads >? 8 then [EvBindThisThread idx] else [])
  ++ [EvMemset (clear_start n idx) (clear_len n idx)].

Definition clear_events (n : Z) : list Event :=
  flat_map (worker_events n) thread_indices ++ map EvJoin thread_indices.

(** Line 76: the address of the table inside the block at [mem].  The sum is
    taken in [uintptr_t], which has the width of [size_t] here, and the mask
    [~(CacheLineSize - 1)], an [int], is converted to it. *)
Definition table_address (mem : Z) : Z :=
  Z.land (size_t (size_t (mem + CacheLineSize) - 1))
         (size_t (Z.lnot (CacheLineSize - 1))).

(** ** Properties of [save] *)

Lemma assert_asserted (c : bool) : asserted c -> assert c = Done tt.
Proof. unfold asserted, assert. intros ->. reflexivity. Qed.

Lemma admits_false (e : TTEntry) (k b d : Z) :
  admits e k b d = false <->
  key16 e = k ≫ 48 /\ d `quot` ONE_PLY <= depth8 e - 4 /\ b <> BOUND_EXACT.
Proof.
  unfold admits. rewrite !orb_false_iff, negb_false_iff.
  rewrite Z.eqb_eq, Z.eqb_neq, Z.gtb_ltb, Z.ltb_ge. split.
  - intros [[Hk Hd] Hb]. split; [symmetry; exact Hk|]. split; assumption.
  - intros (Hk & Hd & Hb). split; [split|]; [symmetry; exact Hk| |]; assumption.
Qed.

Lemma admits_move_irrelevant (e : TTEntry) (mv k b d : Z) :
  admits (mkTTEntry (key16 e) mv (value16 e) (genBound8 e) (depth8 e)) k b d
  = admits e k b d.
Proof. reflexivity. Qed.

(** What [save] leaves when the admission test fails. *)
Lemma save_rejected (g : Z) (e : TTEntry) (k v b d m : Z) :
  asserted (save_assertion d) ->
  admits e k b d = false ->
  save g e k v b d m =
  Done (if replaces_move e k m
        then mkTTEntry (key16 e) (u16 m) (value16 e) (genBound8 e) (depth8 e)
        else e).
Proof.
  intros Ha Hr. unfold save. rewrite (assert_asserted _ Ha). run_result.
  destruct (replaces_move e k m).
  - rewrite admits_move_irrelevant, Hr. reflexivity.
  - rewrite Hr. reflexivity.
Qed.

(** What [save] leaves when the admission test passes. *)
Lemma save_admitted (g : Z) (e : TTEntry) (k v b d m : Z) :
  asserted (save_assertion d) ->
  admits e k b d = true ->
  save g e k v b d m =
  Done (mkTTEntry (u16 (k ≫ 48))
                  (if replaces_move e k m then u16 m else move16 e)
                  (i16 v) (u8 (Z.lor g b)) (i8 (d `quot` ONE_PLY))).
Proof.
  intros Ha Hr. unfold save. rewrite (assert_asserted _ Ha). run_result.
  destruct (replaces_move e k m).
  - rewrite admits_move_irrelevant, Hr. reflexivity.
  - rewrite Hr. reflexivity.
Qed.

Lemma u16_id (x : Z) : 0 <= x < 2 ^ 16 -> u16 x = x.
Proof. intros H. unfold u16. apply Z.mod_small, H. Qed.

Lemma u8_id (x : Z) : 0 <= x < 2 ^ 8 -> u8 x = x.
Proof. intros H. unfold u8. apply Z.mod_small, H. Qed.

Lemma i16_id (x : Z) : - 2 ^ 15 <= x < 2 ^ 15 -> i16 x = x.
Proof. intros H. unfold i16. rewrite Z.mod_small; lia. Qed.

Lemma i8_id (x : Z) : - 2 ^ 7 <= x < 2 ^ 7 -> i8 x = x.
Proof. intros H. unfold i8. rewrite Z.mod_small; lia. Qed.

(** C2, as amended.  An entry that stores the tag of [k] with bound EXACT
    keeps its value, depth and genBound under a save of [k] with a bound that
    is not EXACT whenever the new depth, in plies, is at most the stored depth
    minus 4; as soon as it exceeds the stored depth minus 4 the three are
    overwritten with those of the call. *)
Theorem save_exact_kept_below_margin (g : Z) (e : TTEntry) (k v b d m : Z) :
  asserted (save_assertion d) ->
  key16 e = k ≫ 48 ->
  bound e = BOUND_EXACT ->
  b <> BOUND_EXACT ->
  exists e', save g e k v b d m = Done e'
    /\ (d `quot` ONE_PLY <= depth8 e - 4 -> keeps_score e e')
    /\ (d `quot` ONE_PLY > depth8 e - 4 -> takes_score g e' k v b d).
Proof.
  intros Ha Htag _ Hb.
  destruct (admits e k b d) eqn:Hadm.
  - rewrite (save_admitted _ _ _ _ _ _ _ Ha Hadm). eexists. split; [reflexivity|].
    split.
    + intros Hle. assert (admits e k b d = false) as Hf
        by (apply admits_false; auto).
      congruence.
    + intros _. repeat split.
  - rewrite (save_rejected _ _ _ _ _ _ _ Ha Hadm). eexists. split; [reflexivity|].
    apply admits_false in Hadm as (_ & Hle & _). split.
    + intros _. destruct (replaces_move e k m); repeat split.
    + intros Hgt. lia.
Qed.

(** C5.  When the admission test rejects the overwrite, which is when the
    stored tag is that of [k], the depth is at least 4 plies shallower than the
    stored one and the bound is not EXACT, a save with a non-null move stores
    that move and leaves value, depth and genBound as they were. *)
Theorem save_rejected_updates_move (g : Z) (e : TTEntry) (k v b d m : Z) :
  asserted (save_assertion d) ->
  0 <= m < 2 ^ 16 ->
  m <> 0 ->
  admits e k b d = false ->
  (key16 e = k ≫ 48 /\ d `quot` ONE_PLY < depth8 e /\ b <> BOUND_EXACT)
  /\ exists e', save g e k v b d m = Done e'
       /\ move16 e' = m /\ key16 e' = key16 e /\ keeps_score e e'.
Proof.
  intros Ha Hm Hnz Hadm. split.
  - apply admits_false in Hadm. lia.
  - rewrite (save_rejected _ _ _ _ _ _ _ Ha Hadm). eexists. split; [reflexivity|].
    unfold replaces_move. apply Z.eqb_neq in Hnz. rewrite Hnz.
    cbv beta iota delta [negb orb]. unfold keeps_score.
    cbv beta iota delta [move16 key16 value16 depth8 genBound8].
    rewrite (u16_id _ Hm). repeat split.
Qed.

(** ** Properties of [probe] *)

(** Checking a property of the bytes one by one. *)
Lemma forall_below (P : Z -> bool) (n : Z) :
  forallb P (seqZ 0 n) = true -> forall z, 0 <= z < n -> P z = true.
Proof.
  intros H z Hz. rewrite forallb_forall in H. apply H.
  apply list_elem_of_In, elem_of_seqZ. lia.
Qed.

Lemma genBound_bits (g b : Z) :
  0 <= g < 256 -> 0 <= b < 4 ->
  0 <= Z.lor g b < 256
  /\ (Z.land g 3 = 0 -> Z.land (Z.lor g b) 252 = g /\ Z.land (Z.lor g b) 3 = b).
Proof.
  intros Hg Hb.
  pose (check := fun g b : Z =>
    (0 <=? Z.lor g b) && (Z.lor g b <? 256)
    && (negb (Z.land g 3 =? 0)
        || ((Z.land (Z.lor g b) 252 =? g) && (Z.land (Z.lor g b) 3 =? b)))).
  assert (forallb (fun g => forallb (check g) (seqZ 0 4)) (seqZ 0 256) = true)
    as Hall by (vm_compute; reflexivity).
  pose proof (forall_below _ _ Hall g Hg) as Hrow. cbv beta in Hrow.
  pose proof (forall_below _ _ Hrow b Hb) as Hc. unfold check in Hc.
  apply andb_prop in Hc as [Hr Hc]. apply andb_prop in Hr as [Hlo Hhi].
  split; [lia|]. intros Hz. rewrite Hz in Hc.
  change (negb (0 =? 0)) with false in Hc. rewrite orb_false_l in Hc.
  apply andb_prop in Hc as [H1 H2]. lia.
Qed.

Lemma bound_range (e : TTEntry) : 0 <= bound e < 4.
Proof.
  unfold bound. change 3 with (Z.ones 2). rewrite Z.land_ones by lia.
  apply Z.mod_pos_bound. lia.
Qed.

Lemma refreshed_genBound (g : Z) (e : TTEntry) :
  0 <= g < 256 -> genBound8 (refreshed g e) = Z.lor g (bound e).
Proof.
  intros Hg. unfold refreshed. cbv beta iota delta [genBound8].
  apply u8_id. change (2 ^ 8) with 256.
  apply (genBound_bits g (bound e) Hg (bound_range e)).
Qed.

Lemma tag_range (k : Z) : 0 <= k < 2 ^ 64 -> 0 <= k ≫ 48 < 2 ^ 16.
Proof.
  intros Hk. rewrite Z.shiftr_div_pow2 by lia. split.
  - apply Z.div_pos; lia.
  - apply Z.div_lt_upper_bound; [lia|].
    change (2 ^ 48 * 2 ^ 16) with (2 ^ 64). lia.
Qed.

(** [probe] in one equation: the slot is refreshed when its tag is zero or
    the one looked for, and it is found when its tag is the one looked for
    and is not zero. *)
Lemma probe_eq (t : TranspositionTable) (key : Z) (e : TTEntry) :
  table t !! entry (entryCount t) key = Some e ->
  probe t key =
  Done (if (key16 e =? 0) || (key16 e =? u16 (key ≫ 48))
        then with_table t (<[entry (entryCount t) key :=
                               refreshed (generation8 t) e]> (table t))
        else t,
        (entry (entryCount t) key,
         negb (key16 e =? 0) && (key16 e =? u16 (key ≫ 48)))).
Proof.
  intros He. unfold probe. rewrite He. cbv zeta.
  change (key16 (mkTTEntry (key16 e) (move16 e) (value16 e)
                           (u8 (Z.lor (generation8 t) (bound e))) (depth8 e)))
    with (key16 e).
  destruct (key16 e =? 0), (key16 e =? u16 (key ≫ 48)); reflexivity.
Qed.



(** What [probe] returns and what it leaves in the slot it looked at. *)
Lemma probe_result (t : TranspositionTable) (key : Z) (e : TTEntry) :
  table t !! entry (entryCount t) key = Some e ->
  exists t' e',
    probe t key =
      Done (t', (entry (entryCount t) key,
                 negb (key16 e =? 0) && (key16 e =? u16 (key ≫ 48))))
    /\ entryCount t' = entryCount t /\ generation8 t' = generation8 t
    /\ length (table t') = length (table t)
    /\ (forall j, j <> entry (entryCount t) key -> table t' !! j = table t !! j)
    /\ table t' !! entry (entryCount t) key = Some e'
    /\ (if (key16 e =? 0) || (key16 e =? u16 (key ≫ 48))
        then e' = refreshed (generation8 t) e else t' = t).
Proof.
  intros He. rewrite (probe_eq t key e He).
  pose proof (lookup_lt_Some _ _ _ He) as Hlt.
  destruct ((key16 e =? 0) || (key16 e =? u16 (key ≫ 48))).
  - exists (with_table t (<[entry (entryCount t) key :=
                             refreshed (generation8 t) e]> (table t))),
           (refreshed (generation8 t) e).
    unfold with_table. cbv beta iota delta [entryCount generation8 table].
    repeat split.
    + apply length_insert.
    + intros j Hj. apply list_lookup_insert_ne. congruence.
    + apply list_lookup_insert_eq, Hlt.
  - exists t, e. repeat split. assumption.
Qed.

(** C4, as amended.  [probe] writes at most one byte: the genBound of the
    entry it looks at, which becomes the current generation or-ed with the
    bound bits the entry has.  It does so when it reports found = true, and
    also when it reports found = false for a slot whose tag is zero; when it
    reports found = false for a slot with a non-zero tag the table is as it
    was.  Tags, moves, values and depths never change. *)
Theorem probe_only_refreshes (t : TranspositionTable) (key : Z) (e : TTEntry) :
  table t !! entry (entryCount t) key = Some e ->
  0 <= generation8 t < 256 ->
  exists t' found e',
    probe t key = Done (t', (entry (entryCount t) key, found))
    /\ (found = true <-> key16 e <> 0 /\ key16 e = u16 (key ≫ 48))
    /\ entryCount t' = entryCount t /\ generation8 t' = generation8 t
    /\ length (table t') = length (table t)
    /\ (forall j, j <> entry (entryCount t) key -> table t' !! j = table t !! j)
    /\ table t' !! entry (entryCount t) key = Some e'
    /\ key16 e' = key16 e /\ move16 e' = move16 e
    /\ value16 e' = value16 e /\ depth8 e' = depth8 e
    /\ (found = true -> genBound8 e' = Z.lor (generation8 t) (bound e))
    /\ (found = false -> key16 e <> 0 -> t' = t)
    /\ (found = false -> key16 e = 0 ->
        genBound8 e' = Z.lor (generation8 t) (bound e)).
Proof.
  intros He Hg.
  destruct (probe_result t key e He)
    as (t' & e' & Hp & Hn & Hgen & Hlen & Hother & He' & Hcase).
  exists t', (negb (key16 e =? 0) && (key16 e =? u16 (key ≫ 48))), e'.
  split; [exact Hp|]. split.
  { rewrite andb_true_iff, negb_true_iff, Z.eqb_neq, Z.eqb_eq. reflexivity. }
  do 5 (split; [assumption|]).
  destruct (key16 e =? 0) eqn:H0.
  - apply Z.eqb_eq in H0. cbv beta iota delta [orb] in Hcase. subst e'.
    repeat split; try reflexivity.
    + intros _. apply refreshed_genBound, Hg.
    + intros _ Hne. contradiction.
    + intros _ _. apply refreshed_genBound, Hg.
  - apply Z.eqb_neq in H0. cbv beta iota delta [orb negb andb] in Hcase |- *.
    destruct (key16 e =? u16 (key ≫ 48)).
    + subst e'. repeat split; try reflexivity.
      * intros _. apply refreshed_genBound, Hg.
      * intros Hf. discriminate.
      * intros Hf. discriminate.
    + subst t'. assert (e' = e) as -> by congruence.
      repeat split; try reflexivity.
      * intros Hf. discriminate.
      * intros _ Hz. contradiction.
Qed.



Lemma asserted_multiple (d : Z) :
  d `quot` ONE_PLY * ONE_PLY = d -> asserted (save_assertion d).
Proof.
  intros H. unfold asserted, save_assertion.
  apply orb_true_iff. right. apply Z.eqb_eq, H.
Qed.

(** C1, as amended.  For a fingerprint whose high 16 bits are not all zero, a
    value that fits 16 signed bits, a depth that is a multiple of the ply unit
    and fits 8 signed bits in plies, and a 16-bit move that is not null or
    comes to a slot holding another tag: [save] with bound EXACT on the entry
    [probe] returned, then [probe] again, finds the entry with exactly the
    saved value, depth and move. *)
Theorem save_then_probe_roundtrip (t : TranspositionTable) (k v d m : Z)
  (e : TTEntry) :
  table t !! entry (entryCount t) k = Some e ->
  0 <= k < 2 ^ 64 ->
  k ≫ 48 <> 0 ->
  d `quot` ONE_PLY * ONE_PLY = d ->
  - 2 ^ 7 <= d `quot` ONE_PLY < 2 ^ 7 ->
  - 2 ^ 15 <= v < 2 ^ 15 ->
  0 <= m < 2 ^ 16 ->
  m <> 0 \/ key16 e <> k ≫ 48 ->
  roundtrip t k v d m.
Proof.
  intros He Hk Htag Hd Hd8 Hv Hm Hmove.
  pose proof (tag_range k Hk) as Htr.
  destruct (probe_result t k e He)
    as (t1 & e1 & Hp1 & Hn1 & Hg1 & _ & _ & He1 & Hcase1).
  assert (key16 e1 = key16 e /\ depth8 e1 = depth8 e) as [Hk1 Hd1].
  { destruct ((key16 e =? 0) || (key16 e =? u16 (k ≫ 48))).
    - subst e1. split; reflexivity.
    - subst t1. assert (e1 = e) as -> by congruence. split; reflexivity. }
  assert (admits e1 k BOUND_EXACT d = true) as Hadm.
  { unfold admits. rewrite Z.eqb_refl. apply orb_true_r. }
  assert (replaces_move e1 k m = true) as Hrep.
  { unfold replaces_move. rewrite Hk1. apply orb_true_iff.
    destruct Hmove as [Hmz|Hkz].
    - left. apply negb_true_iff, Z.eqb_neq, Hmz.
    - right. apply negb_true_iff, Z.eqb_neq. congruence. }
  pose proof (save_admitted (generation8 t1) e1 k v BOUND_EXACT d m
                (asserted_multiple d Hd) Hadm) as Hsave.
  rewrite Hrep in Hsave.
  rewrite (u16_id _ Htr), (u16_id _ Hm), (i16_id _ Hv), (i8_id _ Hd8) in Hsave.
  set (e2 := mkTTEntry (k ≫ 48) m v
                       (u8 (Z.lor (generation8 t1) BOUND_EXACT))
                       (d `quot` ONE_PLY)) in Hsave.
  set (t2 := with_table t1 (<[entry (entryCount t) k := e2]> (table t1))).
  assert (save_at t1 (entry (entryCount t) k) k v BOUND_EXACT d m = Done t2)
    as Hsave_at.
  { unfold save_at. rewrite He1, Hsave. reflexivity. }
  assert (table t2 !! entry (entryCount t2) k = Some e2) as He2.
  { unfold t2, with_table. cbv beta iota delta [entryCount table].
    fold (entryCount t1). rewrite Hn1.
    apply list_lookup_insert_eq. eapply lookup_lt_Some, He1. }
  assert (entryCount t2 = entryCount t) as Hn2 by exact Hn1.
  destruct (probe_result t2 k e2 He2)
    as (t3 & e3 & Hp3 & _ & _ & _ & _ & He3 & Hcase3).
  rewrite Hn2 in Hp3, He3.
  assert (key16 e2 = k ≫ 48) as Hk2 by reflexivity.
  rewrite Hk2, (u16_id _ Htr), Z.eqb_refl, orb_true_r in Hcase3.
  rewrite Hk2, (u16_id _ Htr), Z.eqb_refl, andb_true_r in Hp3.
  apply Z.eqb_neq in Htag. rewrite Htag in Hp3.
  exists e3. split.
  - unfold save_then_probe. rewrite Hp1. run_result. cbv beta iota zeta.
    rewrite Hsave_at. cbv beta iota. rewrite Hp3. cbv beta iota.
    rewrite He3. reflexivity.
  - subst e3. unfold value, depth, move. repeat split. exact Hd.
Qed.

(** ** Properties of [hashfull] *)

Lemma hashfull_loop_eq (t : TranspositionTable) (n : nat) :
  forall (i : nat) (cnt : Z),
    (i + n <= length (table t))%nat ->
    hashfull_loop t i n cnt =
    Done (cnt + occupancy (generation8 t) (take n (drop i (table t)))).
Proof.
  induction n as [|n IH]; intros i cnt Hlen.
  - rewrite take_0. cbn [hashfull_loop occupancy]. f_equal. lia.
  - cbn [hashfull_loop].
    destruct (table t !! i) as [e|] eqn:He.
    + rewrite IH by lia. rewrite (drop_S _ _ _ He).
      cbn [take occupancy]. unfold counted. f_equal. lia.
    + apply lookup_ge_None in He. lia.
Qed.

Lemma hashfull_eq (t : TranspositionTable) :
  (1000 <= length (table t))%nat ->
  hashfull t = Done (occupancy (generation8 t) (take 1000 (table t))).
Proof.
  intros Hlen. unfold hashfull. rewrite hashfull_loop_eq by lia.
  rewrite drop_0. reflexivity.
Qed.

Lemma counted_range (g : Z) (e : TTEntry) : 0 <= counted g e <= 1.
Proof. unfold counted. destruct (Z.land (genBound8 e) 252 =? g); cbn; lia. Qed.

Lemma occupancy_insert (g : Z) (l : list TTEntry) :
  forall (i : nat) (e e' : TTEntry),
    l !! i = Some e ->
    occupancy g (<[i := e']> l) = occupancy g l - counted g e + counted g e'.
Proof.
  induction l as [|x l IH]; intros i e e' He.
  - destruct i; discriminate.
  - destruct i as [|i].
    + injection He as ->. cbn [occupancy]. change (<[0%nat := e']> (e :: l))
        with (e' :: l). cbn [occupancy]. lia.
    + change (<[S i := e']> (x :: l)) with (x :: <[i := e']> l).
      cbn [occupancy]. rewrite (IH i e e' He). lia.
Qed.

Lemma occupancy_lookup_le (g : Z) (l : list TTEntry) :
  forall (i : nat) (e : TTEntry),
    l !! i = Some e -> counted g e <= occupancy g l <= Z.of_nat (length l).
Proof.
  induction l as [|x l IH]; intros i e He.
  - destruct i; discriminate.
  - cbn [occupancy length]. pose proof (counted_range g x).
    destruct i as [|i].
    + injection He as ->. destruct l as [|y l].
      * cbn. lia.
      * specialize (IH 0%nat y eq_refl). pose proof (counted_range g y). lia.
    + specialize (IH i e He). pose proof (counted_range g e). lia.
Qed.

Lemma occupancy_zero (g : Z) (n : nat) :
  g <> 0 -> occupancy g (replicate n zero_entry) = 0.
Proof.
  intros Hg. induction n as [|n IH]; [reflexivity|].
  cbn [replicate occupancy]. rewrite IH. unfold counted.
  change (Z.land (genBound8 zero_entry) 252) with 0.
  apply Z.neq_sym, Z.eqb_neq in Hg. rewrite Hg. reflexivity.
Qed.

(** C9.  When the entry a fingerprint is mapped to has tag 0, [probe] reports
    found = false and still stores the current generation, or-ed with the
    bound bits of the slot, in the genBound of the slot; for a zeroed slot
    that is the current generation itself.  If the slot is one of the 1000
    that [hashfull] samples, [hashfull] counts it from then on: its result is
    the one before the probe plus one, unless the slot was counted already. *)
Theorem probe_marks_empty_slot (t : TranspositionTable) (key : Z) (e : TTEntry) :
  table t !! entry (entryCount t) key = Some e ->
  key16 e = 0 ->
  0 <= generation8 t < 256 ->
  Z.land (generation8 t) 3 = 0 ->
  (entry (entryCount t) key < 1000)%nat ->
  (1000 <= length (table t))%nat ->
  exists t' e' n,
    probe t key = Done (t', (entry (entryCount t) key, false))
    /\ table t' !! entry (entryCount t) key = Some e'
    /\ genBound8 e' = Z.lor (generation8 t) (bound e)
    /\ (genBound8 e = 0 -> genBound8 e' = generation8 t)
    /\ counted (generation8 t') e' = 1
    /\ hashfull t = Done n
    /\ hashfull t' = Done (n + (1 - counted (generation8 t) e))
    /\ 1 <= n + (1 - counted (generation8 t) e).
Proof.
  intros He Hz Hg Hlow Hi Hlen.
  destruct (probe_result t key e He)
    as (t' & e' & Hp & Hn & Hgen & Hlen' & Hother & He' & Hcase).
  apply Z.eqb_eq in Hz. rewrite Hz in Hp, Hcase.
  cbv beta iota delta [negb andb orb] in Hp, Hcase.
  assert (table t' = <[entry (entryCount t) key := e']> (table t)) as Htable.
  { apply list_eq. intros j.
    destruct (decide (j = entry (entryCount t) key)) as [->|Hne].
    - rewrite He'. symmetry. apply list_lookup_insert_eq.
      eapply lookup_lt_Some, He.
    - rewrite (Hother j Hne). symmetry. apply list_lookup_insert_ne. congruence. }
  pose proof (refreshed_genBound (generation8 t) e Hg) as Hgb.
  rewrite <- Hcase in Hgb.
  destruct (genBound_bits (generation8 t) (bound e) Hg (bound_range e))
    as [_ Hbits]. destruct (Hbits Hlow) as [Hhigh _].
  assert (counted (generation8 t) e' = 1) as Hc'.
  { unfold counted. rewrite Hgb, Hhigh, Z.eqb_refl. reflexivity. }
  exists t', e', (occupancy (generation8 t) (take 1000 (table t))).
  split; [exact Hp|]. split; [exact He'|]. split; [exact Hgb|]. split.
  { intros H0. rewrite Hgb. unfold bound. rewrite H0.
    change (Z.land 0 3) with 0. apply Z.lor_0_r. }
  split; [rewrite Hgen; exact Hc'|]. split; [apply hashfull_eq, Hlen|].
  assert (take 1000 (table t) !! entry (entryCount t) key = Some e) as Htake.
  { rewrite lookup_take_lt by exact Hi. exact He. }
  split.
  - rewrite hashfull_eq by (rewrite Hlen'; exact Hlen).
    rewrite Hgen, Htable, take_insert_lt by exact Hi.
    rewrite (occupancy_insert _ _ _ e e' Htake), Hc'. f_equal. lia.
  - pose proof (occupancy_lookup_le (generation8 t) _ _ _ Htake). lia.
Qed.

(** ** Properties of [clear] *)

Lemma size_t_id (x : Z) : 0 <= x < 2 ^ size_bits -> size_t x = x.
Proof. intros H. unfold size_t. apply Z.mod_small, H. Qed.

Lemma stride_facts (n : Z) :
  1 <= Threads -> 0 <= n ->
  0 <= n / Threads <= n /\ n / Threads * Threads <= n.
Proof.
  intros HT Hn. pose proof (Z.mul_div_le n Threads ltac:(lia)) as Hmul.
  assert (0 <= n / Threads) by (apply Z.div_pos; lia).
  split; [|lia]. split; [assumption|]. nia.
Qed.

(** The slices without the wrap-around of [size_t], which never happens. *)
Lemma clear_slice_exact (n idx : Z) :
  1 <= Threads -> 0 <= n < 2 ^ size_bits -> 0 <= idx < Threads ->
  clear_stride n = n / Threads
  /\ clear_start n idx = n / Threads * idx
  /\ clear_len n idx =
       if idx =? Threads - 1 then n - n / Threads * idx else n / Threads.
Proof.
  intros HT Hn Hidx. destruct (stride_facts n HT ltac:(lia)) as [Hs Hmul].
  assert (clear_stride n = n / Threads) as Hstride
    by (unfold clear_stride; apply size_t_id; lia).
  assert (0 <= n / Threads * idx <= n) as Hstart by nia.
  assert (clear_start n idx = n / Threads * idx) as Hst
    by (unfold clear_start; rewrite Hstride; apply size_t_id; lia).
  split; [assumption|]. split; [assumption|].
  unfold clear_len. rewrite Hst, Hstride.
  destruct (idx =? Threads - 1); cbv beta iota delta [negb]; [|reflexivity].
  apply size_t_id. lia.
Qed.

Lemma clear_slice_end (n idx : Z) :
  1 <= Threads -> 0 <= n < 2 ^ size_bits -> 0 <= idx < Threads ->
  clear_start n idx + clear_len n idx =
  if idx =? Threads - 1 then n else n / Threads * (idx + 1).
Proof.
  intros HT Hn Hidx.
  destruct (clear_slice_exact n idx HT Hn Hidx) as (_ & -> & ->).
  destruct (idx =? Threads - 1); lia.
Qed.

(** C6.  For every number of entries and every number T >= 1 of worker
    threads, the slice of worker idx is [stride*idx, stride*(idx+1)) with
    stride = entryCount / T when idx < T-1 and [stride*(T-1), entryCount)
    when idx = T-1; no entry is in two slices, and the entries in some slice
    are exactly those of [0, entryCount). *)
Theorem clear_slices_partition (n : Z) :
  1 <= Threads ->
  0 <= n < 2 ^ size_bits ->
  (forall idx, 0 <= idx < Threads ->
     clear_start n idx = n / Threads * idx
     /\ clear_start n idx + clear_len n idx =
        if idx =? Threads - 1 then n else n / Threads * (idx + 1))
  /\ (forall idx1 idx2 i,
       0 <= idx1 < Threads -> 0 <= idx2 < Threads ->
       in_slice n idx1 i -> in_slice n idx2 i -> idx1 = idx2)
  /\ (forall i, 0 <= i < n <-> exists idx, 0 <= idx < Threads /\ in_slice n idx i).
Proof.
  intros HT Hn. destruct (stride_facts n HT ltac:(lia)) as [Hs Hmul].
  assert (forall idx, 0 <= idx < Threads ->
            clear_start n idx = n / Threads * idx
            /\ clear_start n idx + clear_len n idx =
               if idx =? Threads - 1 then n else n / Threads * (idx + 1))
    as Hshape.
  { intros idx Hidx. split.
    - apply (clear_slice_exact n idx HT Hn Hidx).
    - apply (clear_slice_end n idx HT Hn Hidx). }
  assert (forall a b i, 0 <= a < Threads -> 0 <= b < Threads -> a < b ->
            in_slice n a i -> in_slice n b i -> False) as Hlt.
  { intros a b i Ha Hb Hab [_ Hia] [Hib _].
    destruct (Hshape a Ha) as [_ Hea]. destruct (Hshape b Hb) as [Hsb _].
    rewrite Hea in Hia. rewrite Hsb in Hib.
    replace (a =? Threads - 1) with false in Hia
      by (symmetry; apply Z.eqb_neq; lia).
    assert (n / Threads * (a + 1) <= n / Threads * b)
      by (apply Z.mul_le_mono_nonneg_l; lia).
    lia. }
  split; [exact Hshape|]. split.
  - intros idx1 idx2 i H1 H2 Hi1 Hi2.
    destruct (Z.lt_trichotomy idx1 idx2) as [Hc|[Hc|Hc]]; [|exact Hc|].
    + exfalso. exact (Hlt idx1 idx2 i H1 H2 Hc Hi1 Hi2).
    + exfalso. exact (Hlt idx2 idx1 i H2 H1 Hc Hi2 Hi1).
  - intros i. split.
    + intros Hi.
      destruct (Z_lt_le_dec (i / (n / Threads)) (Threads - 1)) as [Hq|Hq];
        [destruct (Z.eq_dec (n / Threads) 0) as [Hs0|Hs0]|].
      * exists (Threads - 1). split; [lia|]. unfold in_slice.
        destruct (Hshape (Threads - 1) ltac:(lia)) as [Hst Hen].
        rewrite Hen, Hst, Z.eqb_refl, Hs0. lia.
      * exists (i / (n / Threads)).
        assert (0 <= i / (n / Threads)) by (apply Z.div_pos; lia).
        split; [lia|]. unfold in_slice.
        destruct (Hshape (i / (n / Threads)) ltac:(lia)) as [Hst Hen].
        rewrite Hen, Hst.
        replace (i / (n / Threads) =? Threads - 1) with false
          by (symmetry; apply Z.eqb_neq; lia).
        pose proof (Z.mul_div_le i (n / Threads) ltac:(lia)).
        pose proof (Z.mul_succ_div_gt i (n / Threads) ltac:(lia)).
        lia.
      * exists (Threads - 1). split; [lia|]. unfold in_slice.
        destruct (Hshape (Threads - 1) ltac:(lia)) as [Hst Hen].
        rewrite Hen, Hst, Z.eqb_refl.
        destruct (Z.eq_dec (n / Threads) 0) as [Hs0|Hs0].
        -- rewrite Hs0. lia.
        -- pose proof (Z.mul_div_le i (n / Threads) ltac:(lia)).
           assert (n / Threads * (Threads - 1) <= n / Threads * (i / (n / Threads)))
             by (apply Z.mul_le_mono_nonneg_l; lia).
           lia.
    + intros (idx & Hidx & Hlo & Hhi).
      destruct (Hshape idx Hidx) as [Hst Hen]. rewrite Hen in Hhi.
      rewrite Hst in Hlo.
      assert (0 <= n / Threads * idx) by nia.
      destruct (idx =? Threads - 1) eqn:Hlast; [lia|].
      apply Z.eqb_neq in Hlast.
      assert (n / Threads * (idx + 1) <= n / Threads * Threads)
        by (apply Z.mul_le_mono_nonneg_l; lia).
      lia.
Qed.

Lemma outcome_bind {A B : Type} (m : M A) (f : A -> M B) :
  outcome (m ≫= f) = outcome m ≫= (fun a => outcome (f a)).
Proof.
  unfold mbind, M_bind, Result_bind. destruct (outcome m); reflexivity.
Qed.

Lemma table_with_table (t : TranspositionTable) (tbl : list TTEntry) :
  table (with_table t tbl) = tbl.
Proof. reflexivity. Qed.

Lemma generation8_with_table (t : TranspositionTable) (tbl : list TTEntry) :
  generation8 (with_table t tbl) = generation8 t.
Proof. reflexivity. Qed.

Lemma bind_Done {A B : Type} (a : A) (f : A -> Result B) :
  Done a ≫= f = f a.
Proof. reflexivity. Qed.

Lemma memset_zero_spec (tbl : list TTEntry) (start len : Z) :
  0 <= start -> 0 <= len -> start + len <= Z.of_nat (length tbl) ->
  exists tbl',
    memset_zero tbl start len = Done tbl'
    /\ length tbl' = length tbl
    /\ forall i : nat,
         (i < length tbl)%nat ->
         start <= Z.of_nat i < start + len \/ tbl !! i = Some zero_entry ->
         tbl' !! i = Some zero_entry.
Proof.
  intros Hs Hl Hb. unfold memset_zero.
  replace ((0 <=? start) && (0 <=? len)
           && (start + len <=? Z.of_nat (length tbl))) with true
    by (symmetry; rewrite !andb_true_iff, !Z.leb_le; auto).
  eexists. split; [reflexivity|].
  assert (length (take (Z.to_nat start) tbl) = Z.to_nat start) as Hlt
    by (rewrite length_take; lia).
  split.
  - rewrite !length_app, Hlt, length_replicate, length_drop. lia.
  - intros i Hi Hcase.
    destruct (decide (i < Z.to_nat start)%nat) as [Hlo|Hlo].
    + rewrite lookup_app_l by lia. rewrite lookup_take_lt by lia.
      destruct Hcase as [Hin|Hz]; [lia|exact Hz].
    + rewrite lookup_app_r by lia. rewrite Hlt.
      destruct (decide (i - Z.to_nat start < Z.to_nat len)%nat) as [Hmid|Hmid].
      * rewrite lookup_app_l by (rewrite length_replicate; lia).
        apply lookup_replicate_2. lia.
      * rewrite lookup_app_r by (rewrite length_replicate; lia).
        rewrite length_replicate, lookup_drop.
        replace (Z.to_nat (start + len) + (i - Z.to_nat start - Z.to_nat len))%nat
          with i by lia.
        destruct Hcase as [Hin|Hz]; [lia|exact Hz].
Qed.

Lemma clear_worker_outcome (n idx : Z) (tbl : list TTEntry) :
  outcome (clear_worker n idx tbl) =
  memset_zero tbl (clear_start n idx) (clear_len n idx).
Proof.
  unfold clear_worker. rewrite !outcome_bind.
  destruct (Threads >? 8); reflexivity.
Qed.

Lemma join_all_outcome (idxs : list Z) : outcome (join_all idxs) = Done tt.
Proof.
  induction idxs as [|idx rest IH]; [reflexivity|].
  cbn [join_all]. rewrite outcome_bind. exact IH.
Qed.

(** The workers from [lo] on complete the zeroing. *)
Lemma clear_workers_zero (n : Z) :
  1 <= Threads -> 0 <= n < 2 ^ size_bits ->
  forall (c : nat) (lo : Z) (tbl : list TTEntry),
    0 <= lo -> lo + Z.of_nat c = Threads ->
    Z.of_nat (length tbl) = n ->
    (forall i : nat, Z.of_nat i < zeroed_to n lo -> (i < length tbl)%nat ->
                     tbl !! i = Some zero_entry) ->
    exists tbl',
      outcome (clear_workers n (seqZ lo (Z.of_nat c)) tbl) = Done tbl'
      /\ length tbl' = length tbl
      /\ forall i : nat, (i < length tbl)%nat -> tbl' !! i = Some zero_entry.
Proof.
  intros HT Hn. induction c as [|c IH]; intros lo tbl Hlo Hc Hlen Hz.
  - exists tbl. split; [reflexivity|]. split; [reflexivity|].
    intros i Hi. apply Hz; [|exact Hi]. unfold zeroed_to.
    replace (lo =? Threads) with true by (symmetry; apply Z.eqb_eq; lia). lia.
  - rewrite seqZ_cons by lia.
    replace (Z.pred (Z.of_nat (S c))) with (Z.of_nat c) by lia.
    cbn [clear_workers]. rewrite outcome_bind, clear_worker_outcome.
    assert (0 <= lo < Threads) as Hidx by lia.
    destruct (clear_slice_exact n lo HT Hn Hidx) as (_ & Hst & Hln).
    pose proof (clear_slice_end n lo HT Hn Hidx) as Hend.
    destruct (stride_facts n HT ltac:(lia)) as [Hs Hmul].
    assert (0 <= clear_start n lo) as Hst0 by (rewrite Hst; nia).
    assert (clear_start n lo + clear_len n lo <= n) as Hle.
    { rewrite Hend. destruct (lo =? Threads - 1) eqn:Hlast; [lia|].
      apply Z.eqb_neq in Hlast.
      assert (n / Threads * (lo + 1) <= n / Threads * Threads)
        by (apply Z.mul_le_mono_nonneg_l; lia).
      lia. }
    assert (0 <= clear_len n lo) as Hln0.
    { rewrite Hln. destruct (lo =? Threads - 1) eqn:Hlast; [|lia].
      apply Z.eqb_eq in Hlast. rewrite <- Hst. rewrite Hend in Hle. lia. }
    destruct (memset_zero_spec tbl _ _ Hst0 Hln0 ltac:(lia))
      as (tbl1 & Hm & Hlen1 & Hz1).
    rewrite Hm. run_result.
    destruct (IH (Z.succ lo) tbl1 ltac:(lia) ltac:(lia) ltac:(lia))
      as (tbl' & Hout & Hlen' & Hall).
    + intros i Hi Hi1. apply Hz1; [lia|].
      destruct (Z_lt_le_dec (Z.of_nat i) (clear_start n lo)) as [Hb|Hb].
      * right. apply Hz; [|lia]. unfold zeroed_to.
        replace (lo =? Threads) with false by (symmetry; apply Z.eqb_neq; lia).
        lia.
      * left. split; [exact Hb|]. rewrite Hend.
        unfold zeroed_to in Hi.
        replace (Z.succ lo =? Threads) with (lo =? Threads - 1) in Hi
          by (destruct (Z.eqb_spec lo (Threads - 1)),
                       (Z.eqb_spec (Z.succ lo) Threads); lia).
        replace (Z.succ lo) with (lo + 1) in Hi by lia. exact Hi.
    + exists tbl'. split; [exact Hout|]. split; [lia|].
      intros i Hi. apply Hall. lia.
Qed.

(** [clear] returns, and leaves nothing but zeroed entries. *)
Lemma clear_zeroes (t : TranspositionTable) :
  1 <= Threads ->
  Z.of_nat (length (table t)) = entryCount t ->
  entryCount t < 2 ^ size_bits ->
  outcome (clear t) =
  Done (with_table t (replicate (length (table t)) zero_entry)).
Proof.
  intros HT Hlen Hn. unfold clear. rewrite !outcome_bind.
  destruct (clear_workers_zero (entryCount t) HT ltac:(lia)
              (Z.to_nat Threads) 0 (table t) ltac:(lia) ltac:(lia) Hlen)
    as (tbl' & Hout & Hlen' & Hall).
  { intros i Hi _. unfold zeroed_to in Hi.
    replace (0 =? Threads) with false in Hi by (symmetry; apply Z.eqb_neq; lia).
    lia. }
  unfold thread_indices. rewrite Z2Nat.id in Hout by lia.
  rewrite Hout, bind_Done, outcome_bind, join_all_outcome, bind_Done.
  cbv beta iota delta [outcome mret M_ret]. do 2 f_equal.
  apply list_eq. intros i.
  destruct (decide (i < length (table t))%nat) as [Hi|Hi].
  - rewrite (Hall i Hi). symmetry. apply lookup_replicate_2, Hi.
  - transitivity (@None TTEntry).
    + apply lookup_ge_None. lia.
    + symmetry. apply lookup_ge_None. rewrite length_replicate. lia.
Qed.

(** C8.  For a table whose generation is not zero in its high 6 bits,
    [clear] followed by [hashfull] returns 0.  The table has the 1000 entries
    that [hashfull] reads. *)
Theorem clear_then_hashfull_zero (t : TranspositionTable) :
  1 <= Threads ->
  Z.of_nat (length (table t)) = entryCount t ->
  entryCount t < 2 ^ size_bits ->
  1000 <= entryCount t ->
  Z.land (generation8 t) 252 <> 0 ->
  exists t', outcome (clear t) = Done t' /\ hashfull t' = Done 0.
Proof.
  intros HT Hlen Hn Hbig Hgen.
  exists (with_table t (replicate (length (table t)) zero_entry)).
  split; [apply clear_zeroes; assumption|].
  rewrite hashfull_eq
    by (rewrite table_with_table, length_replicate; lia).
  rewrite table_with_table, generation8_with_table.
  rewrite take_replicate, occupancy_zero; [reflexivity|].
  intros H0. rewrite H0 in Hgen. apply Hgen. reflexivity.
Qed.

(** ** Properties of [resize] *)

Lemma resize_entryCount_range (mbSize : Z) :
  0 <= size_bits -> 0 <= resize_entryCount mbSize < 2 ^ size_bits.
Proof.
  intros Hw. unfold resize_entryCount, size_t.
  apply Z.mod_pos_bound. apply Z.pow_pos_nonneg; lia.
Qed.

(** Line 64 without the wrap-around, when the product fits [size_t]. *)
Lemma resize_entryCount_exact (mbSize : Z) :
  0 <= mbSize -> mbSize * 2 ^ 20 < 2 ^ size_bits -> 0 < sizeof_TTEntry ->
  resize_entryCount mbSize = mbSize * 2 ^ 20 / sizeof_TTEntry.
Proof.
  intros Hm Hfit Hsz. unfold resize_entryCount.
  rewrite (size_t_id (mbSize * 1024)) by lia.
  rewrite (size_t_id (mbSize * 1024 * 1024)) by lia.
  replace (mbSize * 1024 * 1024) with (mbSize * 2 ^ 20) by lia.
  apply size_t_id. split.
  - apply Z.div_pos; lia.
  - apply Z.le_lt_trans with (mbSize * 2 ^ 20); [|lia].
    apply Z.div_le_upper_bound; [lia|]. nia.
Qed.

(** [resize] with memory at hand: the new table, zeroed. *)
Lemma resize_success (t : TranspositionTable) (mbSize : Z) :
  1 <= Threads -> 0 <= size_bits ->
  asserted (CacheLineSize `mod` sizeof_TTEntry =? 0) ->
  malloc_succeeds (resize_bytes mbSize) = true ->
  outcome (resize t mbSize) =
  Done (mkTT (resize_entryCount mbSize)
             (replicate (Z.to_nat (resize_entryCount mbSize)) zero_entry)
             (generation8 t)).
Proof.
  intros HT Hw Ha Hmalloc. unfold resize.
  rewrite (assert_asserted _ Ha), Hmalloc.
  pose proof (resize_entryCount_range mbSize Hw) as Hrange.
  set (t0 := mkTT (resize_entryCount mbSize)
                  (malloc_contents <$> seq 0 (Z.to_nat (resize_entryCount mbSize)))
                  (generation8 t)).
  assert (length (table t0) = Z.to_nat (resize_entryCount mbSize)) as Hlen.
  { unfold t0. cbv beta iota delta [table]. rewrite length_fmap.
    apply length_seq. }
  transitivity (outcome (clear t0)); [reflexivity|].
  rewrite clear_zeroes.
  - rewrite Hlen. reflexivity.
  - exact HT.
  - rewrite Hlen. unfold t0. cbv beta iota delta [entryCount]. lia.
  - unfold t0. cbv beta iota delta [entryCount]. lia.
Qed.

(** C7, as amended.  For every size in megabytes whose product with 2^20
    fits [size_t], a [resize] that got its memory leaves
    entryCount = floor(mbSize * 2^20 / sizeof(TTEntry)); with entries of 8
    bytes, [resize(1)] leaves entryCount = 131072. *)
Theorem resize_sets_entryCount (t : TranspositionTable) (mbSize : Z) :
  0 <= mbSize ->
  mbSize * 2 ^ 20 < 2 ^ size_bits ->
  0 < sizeof_TTEntry ->
  1 <= Threads ->
  asserted (CacheLineSize `mod` sizeof_TTEntry =? 0) ->
  malloc_succeeds (resize_bytes mbSize) = true ->
  exists t',
    outcome (resize t mbSize) = Done t'
    /\ entryCount t' = mbSize * 2 ^ 20 / sizeof_TTEntry
    /\ Z.of_nat (length (table t')) = entryCount t'
    /\ (sizeof_TTEntry = 8 -> mbSize = 1 -> entryCount t' = 131072).
Proof.
  intros Hm Hfit Hsz HT Ha Hmalloc.
  assert (0 <= size_bits) as Hw.
  { destruct (Z_lt_le_dec size_bits 0) as [Hneg|Hpos]; [|exact Hpos].
    rewrite (Z.pow_neg_r 2 size_bits Hneg) in Hfit. lia. }
  eexists. split; [apply resize_success; assumption|].
  cbv beta iota delta [entryCount table].
  pose proof (resize_entryCount_range mbSize Hw).
  rewrite length_replicate, (resize_entryCount_exact mbSize Hm Hfit Hsz).
  split; [reflexivity|]. split.
  - rewrite <- (resize_entryCount_exact mbSize Hm Hfit Hsz). lia.
  - intros -> ->. reflexivity.
Qed.

(** ** Errors and termination *)

Lemma quiet_ret {A : Type} (a : A) : quiet (mret a : M A).
Proof. split; [constructor|]. intros s H. discriminate H. Qed.

Lemma quiet_emit (e : Event) : noisy e = false -> quiet (emit e).
Proof.
  intros He. split.
  - apply Forall_singleton, He.
  - intros s H. discriminate H.
Qed.

Lemma quiet_lift {A : Type} (r : Result A) :
  (forall s, r <> Exited s) -> quiet (lift r).
Proof. intros Hr. split; [constructor|exact Hr]. Qed.

Lemma quiet_bind {A B : Type} (m : M A) (f : A -> M B) :
  quiet m -> (forall a, quiet (f a)) -> quiet (m ≫= f).
Proof.
  intros [Htr Hout] Hf. unfold quiet, mbind, M_bind.
  destruct (outcome m) as [a|s| |] eqn:Hm; cbv beta iota delta [trace outcome].
  - destruct (Hf a) as [Htr' Hout']. split; [|exact Hout'].
    apply Forall_app. split; assumption.
  - exfalso. exact (Hout s eq_refl).
  - split; [exact Htr|]. intros s H. discriminate H.
  - split; [exact Htr|]. intros s H. discriminate H.
Qed.

Lemma save_not_exited (g : Z) (e : TTEntry) (k v b d m s : Z) :
  save g e k v b d m <> Exited s.
Proof.
  unfold save, assert. destruct (NDEBUG || save_assertion d); run_result;
    intros H; discriminate H.
Qed.

Lemma save_at_not_exited (t : TranspositionTable) (i : nat) (k v b d m s : Z) :
  save_at t i k v b d m <> Exited s.
Proof.
  unfold save_at. destruct (table t !! i) as [e|]; [|intros H; discriminate H].
  pose proof (save_not_exited (generation8 t) e k v b d m s) as Hs.
  destruct (save (generation8 t) e k v b d m); run_result;
    intros H; try discriminate H.
  apply Hs. injection H as ->. reflexivity.
Qed.

Lemma probe_not_exited (t : TranspositionTable) (key s : Z) :
  probe t key <> Exited s.
Proof.
  unfold probe. destruct (table t !! entry (entryCount t) key) as [e|];
    [|intros H; discriminate H].
  cbv zeta. destruct ((key16 e =? 0) || (key16 e =? u16 (key ≫ 48)));
    intros H; discriminate H.
Qed.

Lemma hashfull_loop_not_exited (t : TranspositionTable) (s : Z) (n : nat) :
  forall (i : nat) (cnt : Z), hashfull_loop t i n cnt <> Exited s.
Proof.
  induction n as [|n IH]; intros i cnt; cbn [hashfull_loop].
  - intros H. discriminate H.
  - destruct (table t !! i); [apply IH|intros H; discriminate H].
Qed.

Lemma hashfull_not_exited (t : TranspositionTable) (s : Z) :
  hashfull t <> Exited s.
Proof. apply hashfull_loop_not_exited. Qed.

Lemma memset_zero_not_exited (tbl : list TTEntry) (start len s : Z) :
  memset_zero tbl start len <> Exited s.
Proof.
  unfold memset_zero.
  destruct ((0 <=? start) && (0 <=? len)
            && (start + len <=? Z.of_nat (length tbl)));
    intros H; discriminate H.
Qed.

Lemma clear_worker_quiet (n idx : Z) (tbl : list TTEntry) :
  quiet (clear_worker n idx tbl).
Proof.
  unfold clear_worker. apply quiet_bind.
  - destruct (Threads >? 8); [apply quiet_emit; reflexivity|apply quiet_ret].
  - intros _. apply quiet_bind; [apply quiet_emit; reflexivity|].
    intros _. apply quiet_lift. intros s. apply memset_zero_not_exited.
Qed.

Lemma clear_workers_quiet (n : Z) (idxs : list Z) :
  forall tbl, quiet (clear_workers n idxs tbl).
Proof.
  induction idxs as [|idx rest IH]; intros tbl; cbn [clear_workers].
  - apply quiet_ret.
  - apply quiet_bind; [apply clear_worker_quiet|exact IH].
Qed.

Lemma join_all_quiet (idxs : list Z) : quiet (join_all idxs).
Proof.
  induction idxs as [|idx rest IH]; cbn [join_all].
  - apply quiet_ret.
  - apply quiet_bind; [apply quiet_emit; reflexivity|intros _; exact IH].
Qed.

Lemma clear_quiet (t : TranspositionTable) : quiet (clear t).
Proof.
  unfold clear. apply quiet_bind; [apply clear_workers_quiet|].
  intros tbl. apply quiet_bind; [apply join_all_quiet|].
  intros _. apply quiet_ret.
Qed.

Lemma assert_not_exited (c : bool) (s : Z) : assert c <> Exited s.
Proof. unfold assert. destruct (NDEBUG || c); intros H; discriminate H. Qed.

Lemma resize_quiet (t : TranspositionTable) (mbSize : Z) :
  malloc_succeeds (resize_bytes mbSize) = true -> quiet (resize t mbSize).
Proof.
  intros Hmalloc. unfold resize. rewrite Hmalloc.
  apply quiet_bind; [apply quiet_emit; reflexivity|]. intros _.
  apply quiet_bind; [apply quiet_lift; intros s; apply assert_not_exited|].
  intros _. apply quiet_bind; [apply quiet_emit; reflexivity|]. intros _.
  apply quiet_bind; [apply quiet_emit; reflexivity|]. intros _.
  apply clear_quiet.
Qed.

(** An operation other than a [resize] left without memory is quiet. *)
Lemma exec_quiet (op : Operation) (t : TranspositionTable) :
  (forall mbSize, op = OpResize mbSize ->
                  malloc_succeeds (resize_bytes mbSize) = true) ->
  quiet (exec op t).
Proof.
  intros Hop. destruct op as [i k v b d m|key| | |mbSize]; cbn [exec].
  - apply quiet_bind; [|intros a; apply quiet_ret].
    apply quiet_lift. intros s. apply save_at_not_exited.
  - apply quiet_bind; [|intros [t' [i found]]; apply quiet_ret].
    apply quiet_lift. intros s. apply probe_not_exited.
  - apply quiet_bind; [|intros a; apply quiet_ret].
    apply quiet_lift. intros s. apply hashfull_not_exited.
  - apply quiet_bind; [apply clear_quiet|intros a; apply quiet_ret].
  - apply quiet_bind; [|intros a; apply quiet_ret].
    apply resize_quiet, Hop. reflexivity.
Qed.

(** An operation called within its contract returns. *)
Lemma exec_returns (op : Operation) (t : TranspositionTable) :
  within_contract op t -> exists r, outcome (exec op t) = Done r.
Proof.
  destruct op as [i k v b d m|key| | |mbSize]; cbn [exec within_contract];
    intros Hc; rewrite outcome_bind.
  - destruct Hc as [Hi Ha].
    apply lookup_lt_is_Some in Hi as [e He].
    cbv beta iota delta [lift outcome]. unfold save_at. rewrite He.
    destruct (admits e k b d) eqn:Hadm.
    + rewrite (save_admitted _ _ _ _ _ _ _ Ha Hadm). eexists. reflexivity.
    + rewrite (save_rejected _ _ _ _ _ _ _ Ha Hadm). eexists. reflexivity.
  - apply lookup_lt_is_Some in Hc as [e He].
    cbv beta iota delta [lift outcome]. rewrite (probe_eq t key e He).
    eexists. reflexivity.
  - cbv beta iota delta [lift outcome]. rewrite (hashfull_eq t Hc).
    eexists. reflexivity.
  - destruct Hc as (HT & Hlen & Hn). rewrite (clear_zeroes t HT Hlen Hn).
    eexists. reflexivity.
  - destruct Hc as (HT & Hw & Ha & Hmalloc).
    rewrite (resize_success t mbSize HT Hw Ha Hmalloc). eexists. reflexivity.
Qed.

(** C10.  When the allocation inside [resize] fails, [resize] writes the
    requested size to [std::cerr] and calls [exit(EXIT_FAILURE)]: [malloc] has
    been called once, [clear] is not run, and the call does not return.  No
    other call writes to [std::cerr] or exits, and every call made within its
    contract returns. *)
Theorem resize_failure_is_the_only_exit :
  (forall t mbSize,
     asserted (CacheLineSize `mod` sizeof_TTEntry =? 0) ->
     malloc_succeeds (resize_bytes mbSize) = false ->
     resize t mbSize =
       mkM [EvWaitForSearchFinished; EvFree; EvMalloc (resize_bytes mbSize);
            EvCerr [Text "Failed to allocate "; Number mbSize;
                    Text "MB for transposition table."; Endl];
            EvExit EXIT_FAILURE]
           (Exited EXIT_FAILURE)
     /\ outcome (exec (OpResize mbSize) t) = Exited EXIT_FAILURE)
  /\ (forall op t,
       (forall mbSize, op = OpResize mbSize ->
                       malloc_succeeds (resize_bytes mbSize) = true) ->
       quiet (exec op t))
  /\ (forall op t, within_contract op t ->
                  exists r, outcome (exec op t) = Done r).
Proof.
  split; [|split; [exact exec_quiet|exact exec_returns]].
  intros t mbSize Ha Hmalloc.
  assert (resize t mbSize =
            mkM [EvWaitForSearchFinished; EvFree; EvMalloc (resize_bytes mbSize);
                 EvCerr [Text "Failed to allocate "; Number mbSize;
                         Text "MB for transposition table."; Endl];
                 EvExit EXIT_FAILURE]
                (Exited EXIT_FAILURE)) as Hr.
  { unfold resize. rewrite (assert_asserted _ Ha), Hmalloc. reflexivity. }
  split; [exact Hr|]. cbn [exec]. rewrite outcome_bind, Hr. reflexivity.
Qed.

(** ** Further properties of [save] *)

(** X1.  Whatever the admission test decides, the entry [save] leaves carries
    the tag of the fingerprint saved. *)
Theorem save_stores_tag (g : Z) (e : TTEntry) (k v b d m : Z) :
  asserted (save_assertion d) ->
  0 <= k < 2 ^ 64 ->
  exists e', save g e k v b d m = Done e' /\ key16 e' = k ≫ 48.
Proof.
  intros Ha Hk. pose proof (tag_range k Hk) as Htr.
  destruct (admits e k b d) eqn:Hadm.
  - rewrite (save_admitted _ _ _ _ _ _ _ Ha Hadm). eexists.
    split; [reflexivity|]. apply (u16_id _ Htr).
  - rewrite (save_rejected _ _ _ _ _ _ _ Ha Hadm). eexists.
    split; [reflexivity|]. apply admits_false in Hadm as (Htag & _).
    destruct (replaces_move e k m); exact Htag.
Qed.

(** X2.  The move [save] leaves does not depend on the admission test: a
    null move saved for the position the slot holds keeps the stored move,
    and every other save stores its move, a null one included. *)
Theorem save_move_rule (g : Z) (e : TTEntry) (k v b d m : Z) :
  asserted (save_assertion d) ->
  exists e', save g e k v b d m = Done e'
    /\ (m = 0 -> key16 e = k ≫ 48 -> move16 e' = move16 e)
    /\ (m <> 0 \/ key16 e <> k ≫ 48 -> move16 e' = u16 m).
Proof.
  intros Ha.
  assert (replaces_move e k m = false <-> m = 0 /\ key16 e = k ≫ 48) as Hrep.
  { unfold replaces_move. rewrite orb_false_iff, !negb_false_iff, !Z.eqb_eq.
    split; intros [H1 H2]; split; congruence. }
  assert (exists e', save g e k v b d m = Done e'
            /\ move16 e' = if replaces_move e k m then u16 m else move16 e)
    as (e' & Hs & Hm).
  { destruct (admits e k b d) eqn:Hadm.
    - rewrite (save_admitted _ _ _ _ _ _ _ Ha Hadm). eexists.
      split; reflexivity.
    - rewrite (save_rejected _ _ _ _ _ _ _ Ha Hadm). eexists.
      split; [reflexivity|]. destruct (replaces_move e k m); reflexivity. }
  exists e'. split; [exact Hs|]. rewrite Hm.
  destruct (replaces_move e k m) eqn:Hr.
  - split; [|reflexivity]. intros Hm0 Htag.
    discriminate (proj2 Hrep (conj Hm0 Htag)).
  - destruct (proj1 Hrep eq_refl) as [Hm0 Htag]. split; [reflexivity|].
    intros [H|H]; contradiction.
Qed.

(** X3.  A save into a slot that holds the tag of another position leaves
    nothing of the old entry: tag, move, value, genBound and depth are those
    of the call, whatever its depth and bound. *)
Theorem save_other_position_overwrites (g : Z) (e : TTEntry) (k v b d m : Z) :
  asserted (save_assertion d) ->
  key16 e <> k ≫ 48 ->
  save g e k v b d m = Done (written g k v b d m).
Proof.
  intros Ha Htag.
  assert ((k ≫ 48 =? key16 e) = false) as Hne
    by (apply Z.eqb_neq; congruence).
  assert (admits e k b d = true) as Hadm
    by (unfold admits; rewrite Hne; reflexivity).
  rewrite (save_admitted _ _ _ _ _ _ _ Ha Hadm).
  unfold replaces_move. rewrite Hne, orb_true_r. reflexivity.
Qed.

(** X4.  Saving the same result twice leaves what saving it once leaves. *)
Theorem save_idempotent (g : Z) (e e1 : TTEntry) (k v b d m : Z) :
  0 <= k < 2 ^ 64 ->
  save g e k v b d m = Done e1 ->
  save g e1 k v b d m = Done e1.
Proof.
  intros Hk Hs. pose proof (tag_range k Hk) as Htr.
  assert (asserted (save_assertion d)) as Ha.
  { unfold save, assert in Hs. unfold asserted.
    destruct (NDEBUG || save_assertion d); [reflexivity|discriminate Hs]. }
  assert (key16 e1 = k ≫ 48
          /\ (m <> 0 -> move16 e1 = u16 m)
          /\ (admits e1 k b d = true ->
              value16 e1 = i16 v /\ genBound8 e1 = u8 (Z.lor g b)
              /\ depth8 e1 = i8 (d `quot` ONE_PLY))) as (Htag & Hmv & Hsc).
  { destruct (admits e k b d) eqn:Hadm.
    - rewrite (save_admitted _ _ _ _ _ _ _ Ha Hadm) in Hs.
      injection Hs as <-. split; [apply (u16_id _ Htr)|]. split.
      + intros Hm. unfold replaces_move. apply Z.eqb_neq in Hm.
        rewrite Hm. reflexivity.
      + intros _. repeat split.
    - rewrite (save_rejected _ _ _ _ _ _ _ Ha Hadm) in Hs.
      injection Hs as <-.
      destruct (proj1 (admits_false e k b d) Hadm) as (Hk16 & _).
      destruct (replaces_move e k m) eqn:Hr.
      + split; [exact Hk16|]. split; [reflexivity|].
        intros Hc. rewrite admits_move_irrelevant in Hc. congruence.
      + split; [exact Hk16|]. split.
        * intros Hm. unfold replaces_move in Hr. apply Z.eqb_neq in Hm.
          rewrite Hm in Hr. discriminate Hr.
        * intros Hc. congruence. }
  assert (replaces_move e1 k m = negb (m =? 0)) as Hrep.
  { unfold replaces_move. rewrite Htag, Z.eqb_refl. apply orb_false_r. }
  destruct e1 as [k1 m1 v1 g1 d1].
  cbv beta iota delta [key16 move16 value16 genBound8 depth8] in Htag, Hmv, Hsc.
  destruct (admits (mkTTEntry k1 m1 v1 g1 d1) k b d) eqn:Hadm1.
  - rewrite (save_admitted _ _ _ _ _ _ _ Ha Hadm1), Hrep.
    destruct (Hsc eq_refl) as (-> & -> & ->). rewrite (u16_id _ Htr), Htag.
    destruct (m =? 0) eqn:Hm0; cbv beta iota delta [negb move16].
    + reflexivity.
    + apply Z.eqb_neq in Hm0. rewrite (Hmv Hm0). reflexivity.
  - rewrite (save_rejected _ _ _ _ _ _ _ Ha Hadm1), Hrep.
    destruct (m =? 0) eqn:Hm0;
      cbv beta iota delta [negb key16 move16 value16 genBound8 depth8].
    + reflexivity.
    + apply Z.eqb_neq in Hm0. rewrite (Hmv Hm0). reflexivity.
Qed.

(** ** Further properties of [probe] *)

Lemma refresh_bits (g b : Z) :
  0 <= g < 256 -> 0 <= b < 4 ->
  Z.lor g (Z.land (Z.lor g b) 3) = Z.lor g b.
Proof.
  intros Hg Hb.
  pose (check := fun g b : Z => Z.lor g (Z.land (Z.lor g b) 3) =? Z.lor g b).
  assert (forallb (fun g => forallb (check g) (seqZ 0 4)) (seqZ 0 256) = true)
    as Hall by (vm_compute; reflexivity).
  pose proof (forall_below _ _ Hall g Hg) as Hrow. cbv beta in Hrow.
  pose proof (forall_below _ _ Hrow b Hb) as Hc. unfold check in Hc.
  apply Z.eqb_eq, Hc.
Qed.

Lemma refreshed_idempotent (g : Z) (e : TTEntry) :
  0 <= g < 256 -> refreshed g (refreshed g e) = refreshed g e.
Proof.
  intros Hg. pose proof (refreshed_genBound g e Hg) as Hgb.
  unfold refreshed at 1. unfold bound at 1. rewrite Hgb.
  rewrite (refresh_bits g (bound e) Hg (bound_range e)). reflexivity.
Qed.

(** X5.  A probe repeated on the table the first one left reports the same
    entry and the same found, and leaves that table as it is. *)
Theorem probe_idempotent (t : TranspositionTable) (key : Z) (e : TTEntry) :
  table t !! entry (entryCount t) key = Some e ->
  0 <= generation8 t < 256 ->
  exists t1 r, probe t key = Done (t1, r) /\ probe t1 key = Done (t1, r).
Proof.
  intros He Hg. pose proof (lookup_lt_Some _ _ _ He) as Hlt.
  rewrite (probe_eq t key e He).
  destruct ((key16 e =? 0) || (key16 e =? u16 (key ≫ 48))) eqn:Hc.
  - eexists _, _. split; [reflexivity|].
    set (t1 := with_table t (<[entry (entryCount t) key :=
                                 refreshed (generation8 t) e]> (table t))).
    assert (table t1 !! entry (entryCount t1) key
            = Some (refreshed (generation8 t) e)) as He1
      by (apply list_lookup_insert_eq, Hlt).
    rewrite (probe_eq t1 key _ He1).
    change (key16 (refreshed (generation8 t) e)) with (key16 e). rewrite Hc.
    change (generation8 t1) with (generation8 t).
    rewrite (refreshed_idempotent _ e Hg).
    change (entryCount t1) with (entryCount t). do 2 f_equal.
    unfold t1, with_table. cbv beta iota delta [entryCount generation8 table].
    f_equal. apply list_insert_insert_eq.
  - exists t, (entry (entryCount t) key,
               negb (key16 e =? 0) && (key16 e =? u16 (key ≫ 48))).
    split; [reflexivity|]. rewrite (probe_eq t key e He), Hc. reflexivity.
Qed.

(** X6.  With a generation whose low 2 bits are zero, [probe] leaves the
    bound kind of every entry as it is. *)
Theorem probe_keeps_bounds (t : TranspositionTable) (key : Z) (e : TTEntry) :
  table t !! entry (entryCount t) key = Some e ->
  0 <= generation8 t < 256 ->
  Z.land (generation8 t) 3 = 0 ->
  exists t' r,
    probe t key = Done (t', r)
    /\ forall j ej, table t !! j = Some ej ->
         exists ej', table t' !! j = Some ej' /\ bound ej' = bound ej.
Proof.
  intros He Hg Hlow.
  destruct (probe_result t key e He)
    as (t' & e' & Hp & _ & _ & _ & Hother & He' & Hcase).
  exists t', (entry (entryCount t) key,
              negb (key16 e =? 0) && (key16 e =? u16 (key ≫ 48))).
  split; [exact Hp|]. intros j ej Hj.
  destruct (decide (j = entry (entryCount t) key)) as [->|Hne].
  - exists e'. split; [exact He'|]. assert (ej = e) as -> by congruence.
    destruct ((key16 e =? 0) || (key16 e =? u16 (key ≫ 48))).
    + subst e'. unfold bound at 1. rewrite (refreshed_genBound _ e Hg).
      apply (genBound_bits _ _ Hg (bound_range e)), Hlow.
    + subst t'. congruence.
  - exists ej. split; [|reflexivity]. rewrite (Hother j Hne). exact Hj.
Qed.

(** X7.  A fingerprint whose high 16 bits are all zero is never reported as
    found, whatever the table holds. *)
Theorem probe_zero_tag_never_found (t t' : TranspositionTable) (key : Z)
  (i : nat) :
  u16 (key ≫ 48) = 0 -> probe t key <> Done (t', (i, true)).
Proof.
  intros Htag.
  destruct (table t !! entry (entryCount t) key) as [e|] eqn:He.
  - rewrite (probe_eq t key e He), Htag.
    destruct (key16 e =? 0); intros H; discriminate H.
  - unfold probe. rewrite He. intros H. discriminate H.
Qed.

(** ** [save] and [probe] together *)

Lemma probed_fields (g key : Z) (e : TTEntry) :
  key16 (probed g key e) = key16 e /\ move16 (probed g key e) = move16 e
  /\ value16 (probed g key e) = value16 e
  /\ depth8 (probed g key e) = depth8 e.
Proof.
  unfold probed.
  destruct ((key16 e =? 0) || (key16 e =? u16 (key ≫ 48))); repeat split.
Qed.

Lemma admits_probed (g key : Z) (e : TTEntry) (k b d : Z) :
  admits (probed g key e) k b d = admits e k b d.
Proof.
  destruct (probed_fields g key e) as (Hk & _ & _ & Hd).
  unfold admits. rewrite Hk, Hd. reflexivity.
Qed.

Lemma replaces_move_probed (g key : Z) (e : TTEntry) (k m : Z) :
  replaces_move (probed g key e) k m = replaces_move e k m.
Proof.
  destruct (probed_fields g key e) as (Hk & _).
  unfold replaces_move. rewrite Hk. reflexivity.
Qed.

(** [probe] written with [probed] and [hit], hit or miss. *)
Lemma probe_uniform (t : TranspositionTable) (key : Z) (e : TTEntry) :
  table t !! entry (entryCount t) key = Some e ->
  probe t key =
  Done (with_table t (<[entry (entryCount t) key :=
                          probed (generation8 t) key e]> (table t)),
        (entry (entryCount t) key, hit key e)).
Proof.
  intros He. rewrite (probe_eq t key e He). unfold probed, hit.
  destruct ((key16 e =? 0) || (key16 e =? u16 (key ≫ 48))); [reflexivity|].
  rewrite (list_insert_id _ _ _ He). destruct t; reflexivity.
Qed.

(** [save] on the entry [probe] returned, then [probe] again, works on that
    one entry: its result is the one of [save] on the probed entry, probed
    once more, and an assertion that stops [save] stops it. *)
Lemma save_then_probe_on_entry (t : TranspositionTable) (k v b d m : Z)
  (e : TTEntry) :
  table t !! entry (entryCount t) k = Some e ->
  save_then_probe t k v b d m =
  e2 ← save (generation8 t) (probed (generation8 t) k e) k v b d m;
  Done (hit k e2, probed (generation8 t) k e2).
Proof.
  intros He. pose proof (lookup_lt_Some _ _ _ He) as Hlt.
  unfold save_then_probe. rewrite (probe_uniform t k e He), bind_Done.
  cbv beta iota zeta.
  set (i := entry (entryCount t) k). set (g := generation8 t).
  set (t1 := with_table t (<[i := probed g k e]> (table t))).
  assert (table t1 !! i = Some (probed g k e)) as He1
    by (apply list_lookup_insert_eq, Hlt).
  unfold save_at. rewrite He1. change (generation8 t1) with g.
  destruct (save g (probed g k e) k v b d m) as [e2| | |]; try reflexivity.
  rewrite !bind_Done.
  set (t2 := with_table t1 (<[i := e2]> (table t1))).
  assert (table t2 !! entry (entryCount t2) k = Some e2) as He2.
  { apply list_lookup_insert_eq. unfold t1.
    rewrite table_with_table, length_insert. exact Hlt. }
  rewrite (probe_uniform t2 k e2 He2), bind_Done. cbv beta iota zeta.
  change (entryCount t2) with (entryCount t). fold i.
  change (generation8 t2) with g.
  rewrite table_with_table, list_lookup_insert_eq; [reflexivity|].
  unfold t2, t1. rewrite !table_with_table, !length_insert. exact Hlt.
Qed.

(** X8.  A save that passes the admission test is read back whole: for a
    fingerprint with a non-zero tag, values in the widths of the entry and a
    generation whose low 2 bits are zero, the next probe finds the entry with
    the saved value, depth and bound, stamped with the current generation;
    its move is the saved one, or the one the slot held when a null move is
    saved for the same position. *)
Theorem save_then_probe_admitted (t : TranspositionTable) (k v b d m : Z)
  (e : TTEntry) :
  table t !! entry (entryCount t) k = Some e ->
  0 <= k < 2 ^ 64 ->
  k ≫ 48 <> 0 ->
  d `quot` ONE_PLY * ONE_PLY = d ->
  - 2 ^ 7 <= d `quot` ONE_PLY < 2 ^ 7 ->
  - 2 ^ 15 <= v < 2 ^ 15 ->
  0 <= m < 2 ^ 16 ->
  0 <= b < 4 ->
  0 <= generation8 t < 256 ->
  Z.land (generation8 t) 3 = 0 ->
  admits e k b d = true ->
  exists e3,
    save_then_probe t k v b d m = Done (true, e3)
    /\ key16 e3 = k ≫ 48
    /\ value e3 = v /\ depth e3 = d /\ bound e3 = b
    /\ Z.land (genBound8 e3) 252 = generation8 t
    /\ move e3 = if replaces_move e k m then m else move16 e.
Proof.
  intros He Hk Htag Hd Hd8 Hv Hm Hb Hg Hlow Hadm.
  pose proof (tag_range k Hk) as Htr.
  rewrite (save_then_probe_on_entry t k v b d m e He).
  set (g := generation8 t) in *.
  rewrite <- (admits_probed g k e) in Hadm.
  rewrite (save_admitted g _ k v b d m (asserted_multiple d Hd) Hadm).
  rewrite bind_Done, replaces_move_probed.
  destruct (probed_fields g k e) as (_ & Hmv & _). rewrite Hmv.
  rewrite (u16_id _ Htr), (u16_id _ Hm), (i16_id _ Hv), (i8_id _ Hd8).
  destruct (genBound_bits g b Hg Hb) as [Hrange Hbits].
  destruct (Hbits Hlow) as [Hhigh Hbound].
  rewrite (u8_id (Z.lor g b)) by (change (2 ^ 8) with 256; exact Hrange).
  set (e2 := mkTTEntry (k ≫ 48) (if replaces_move e k m then m else move16 e)
                       v (Z.lor g b) (d `quot` ONE_PLY)).
  assert (hit k e2 = true) as Hhit.
  { unfold hit. change (key16 e2) with (k ≫ 48).
    rewrite (u16_id _ Htr), Z.eqb_refl, andb_true_r.
    apply negb_true_iff, Z.eqb_neq, Htag. }
  assert (probed g k e2 = refreshed g e2) as Hpr.
  { unfold probed. change (key16 e2) with (k ≫ 48).
    rewrite (u16_id _ Htr), Z.eqb_refl, orb_true_r. reflexivity. }
  assert (genBound8 (refreshed g e2) = Z.lor g b) as Hgb.
  { rewrite (refreshed_genBound g e2 Hg). unfold bound.
    change (genBound8 e2) with (Z.lor g b). apply (refresh_bits g b Hg Hb). }
  rewrite Hhit, Hpr. eexists. split; [reflexivity|].
  unfold value, depth, move, bound. rewrite Hgb.
  repeat split; try assumption.
Qed.

(** X9.  A save that fails the admission test still leaves the entry to be
    found: for a non-zero tag the next probe finds it with the value, depth
    and bound it had, stamped with the current generation, and with the move
    of the call unless that is null. *)
Theorem save_then_probe_rejected (t : TranspositionTable) (k v b d m : Z)
  (e : TTEntry) :
  table t !! entry (entryCount t) k = Some e ->
  0 <= k < 2 ^ 64 ->
  k ≫ 48 <> 0 ->
  asserted (save_assertion d) ->
  0 <= m < 2 ^ 16 ->
  0 <= generation8 t < 256 ->
  Z.land (generation8 t) 3 = 0 ->
  admits e k b d = false ->
  exists e3,
    save_then_probe t k v b d m = Done (true, e3)
    /\ key16 e3 = k ≫ 48
    /\ value16 e3 = value16 e /\ depth8 e3 = depth8 e /\ bound e3 = bound e
    /\ Z.land (genBound8 e3) 252 = generation8 t
    /\ move16 e3 = if m =? 0 then move16 e else m.
Proof.
  intros He Hk Htag Ha Hm Hg Hlow Hadm.
  pose proof (tag_range k Hk) as Htr.
  rewrite (save_then_probe_on_entry t k v b d m e He).
  set (g := generation8 t) in *.
  destruct (proj1 (admits_false e k b d) Hadm) as (Hk16 & _).
  assert (probed g k e = refreshed g e) as Hpr.
  { unfold probed. rewrite Hk16, (u16_id _ Htr), Z.eqb_refl, orb_true_r.
    reflexivity. }
  assert (admits (refreshed g e) k b d = false) as Hadm'
    by (rewrite <- Hpr, admits_probed; exact Hadm).
  rewrite Hpr, (save_rejected g _ k v b d m Ha Hadm'), bind_Done.
  assert (replaces_move (refreshed g e) k m = negb (m =? 0)) as Hrep.
  { unfold replaces_move. change (key16 (refreshed g e)) with (key16 e).
    rewrite Hk16, Z.eqb_refl. apply orb_false_r. }
  rewrite Hrep.
  destruct (genBound_bits g (bound e) Hg (bound_range e)) as [_ Hbits].
  destruct (Hbits Hlow) as [Hhigh Hbound].
  pose proof (refreshed_genBound g e Hg) as Hgb.
  assert (forall mv,
            let e2 := mkTTEntry (key16 e) mv (value16 e)
                                (genBound8 (refreshed g e)) (depth8 e) in
            hit k e2 = true /\ probed g k e2 = e2) as Hfix.
  { intros mv e2. split.
    - unfold hit. change (key16 e2) with (key16 e).
      rewrite Hk16, (u16_id _ Htr), Z.eqb_refl, andb_true_r.
      apply negb_true_iff, Z.eqb_neq, Htag.
    - unfold probed. change (key16 e2) with (key16 e).
      rewrite Hk16, (u16_id _ Htr), Z.eqb_refl, orb_true_r.
      unfold refreshed at 1, bound at 1.
      change (genBound8 e2) with (genBound8 (refreshed g e)).
      rewrite Hgb, (refresh_bits g (bound e) Hg (bound_range e)).
      reflexivity. }
  destruct (m =? 0) eqn:Hm0; cbv beta iota delta [negb].
  - destruct (Hfix (move16 e)) as [Hhit Hp].
    change (refreshed g e)
      with (mkTTEntry (key16 e) (move16 e) (value16 e)
                      (genBound8 (refreshed g e)) (depth8 e)).
    rewrite Hhit, Hp. eexists. split; [reflexivity|].
    cbv beta iota delta [key16 value16 depth8 move16].
    unfold bound at 1. cbv beta iota delta [genBound8]. fold (genBound8 (refreshed g e)).
    rewrite Hgb. repeat split; assumption.
  - destruct (Hfix (u16 m)) as [Hhit Hp].
    change (mkTTEntry (key16 (refreshed g e)) (u16 m) (value16 (refreshed g e))
                      (genBound8 (refreshed g e)) (depth8 (refreshed g e)))
      with (mkTTEntry (key16 e) (u16 m) (value16 e)
                      (genBound8 (refreshed g e)) (depth8 e)).
    rewrite Hhit, Hp. eexists. split; [reflexivity|].
    cbv beta iota delta [key16 value16 depth8 move16].
    unfold bound at 1. cbv beta iota delta [genBound8]. fold (genBound8 (refreshed g e)).
    rewrite Hgb, (u16_id _ Hm). repeat split; assumption.
Qed.

(** X10.  After [clear] every probe is a miss: whatever the table held, no
    fingerprint is found. *)
Theorem clear_then_probe_misses (t : TranspositionTable) :
  1 <= Threads ->
  Z.of_nat (length (table t)) = entryCount t ->
  entryCount t < 2 ^ size_bits ->
  exists t1,
    outcome (clear t) = Done t1
    /\ forall key,
         (entry (entryCount t) key < length (table t))%nat ->
         exists t2, probe t1 key = Done (t2, (entry (entryCount t) key, false)).
Proof.
  intros HT Hlen Hn. eexists. split; [apply clear_zeroes; assumption|].
  intros key Hi.
  set (t1 := with_table t (replicate (length (table t)) zero_entry)).
  assert (table t1 !! entry (entryCount t1) key = Some zero_entry) as He
    by (apply lookup_replicate_2, Hi).
  rewrite (probe_eq t1 key zero_entry He). eexists. reflexivity.
Qed.

(** ** Further properties of [hashfull] *)

Lemma occupancy_range (g : Z) (l : list TTEntry) :
  0 <= occupancy g l <= Z.of_nat (length l).
Proof.
  induction l as [|x l IH]; cbn [occupancy length]; [lia|].
  pose proof (counted_range g x). lia.
Qed.

(** X11.  On a table that holds the 1000 entries it samples, [hashfull]
    returns a count between 0 and 1000. *)
Theorem hashfull_range (t : TranspositionTable) :
  (1000 <= length (table t))%nat ->
  exists n, hashfull t = Done n /\ 0 <= n <= 1000.
Proof.
  intros Hlen. rewrite (hashfull_eq t Hlen). eexists. split; [reflexivity|].
  pose proof (occupancy_range (generation8 t) (take 1000 (table t))) as Hr.
  rewrite length_take in Hr. lia.
Qed.

Lemma hashfull_loop_past_end (t : TranspositionTable) (n : nat) :
  forall (i : nat) (cnt : Z),
    (i <= length (table t))%nat -> (length (table t) < i + n)%nat ->
    hashfull_loop t i n cnt = OutOfBounds.
Proof.
  induction n as [|n IH]; intros i cnt Hle Hlt; [lia|].
  cbn [hashfull_loop]. destruct (table t !! i) as [e|] eqn:He; [|reflexivity].
  apply lookup_lt_Some in He. apply IH; lia.
Qed.

(** X12.  [hashfull] samples the entries 0 to 999 whatever [entryCount] is:
    on a table of fewer than 1000 entries it reads outside the table. *)
Theorem hashfull_short_table (t : TranspositionTable) :
  (length (table t) < 1000)%nat -> hashfull t = OutOfBounds.
Proof.
  intros Hlen. unfold hashfull. apply hashfull_loop_past_end; lia.
Qed.

(** X13.  How [save] moves the count of [hashfull]: a save that passes the
    admission test in one of the sampled slots makes the slot count, so the
    count grows by one unless the slot counted already; a save that fails the
    test leaves the count as it is.  The generation has its low 2 bits at
    zero and the bound fits 2 bits. *)
Theorem save_at_hashfull (t : TranspositionTable) (i : nat) (k v b d m : Z)
  (e : TTEntry) :
  table t !! i = Some e ->
  (i < 1000)%nat ->
  (1000 <= length (table t))%nat ->
  asserted (save_assertion d) ->
  0 <= generation8 t < 256 ->
  Z.land (generation8 t) 3 = 0 ->
  0 <= b < 4 ->
  exists t' n,
    save_at t i k v b d m = Done t'
    /\ hashfull t = Done n
    /\ hashfull t' =
       Done (if admits e k b d then n + (1 - counted (generation8 t) e) else n).
Proof.
  intros He Hi Hlen Ha Hg Hlow Hb. set (g := generation8 t) in *.
  assert (take 1000 (table t) !! i = Some e) as Htake
    by (rewrite lookup_take_lt by exact Hi; exact He).
  assert (forall e',
            hashfull (with_table t (<[i := e']> (table t))) =
            Done (occupancy g (take 1000 (table t)) - counted g e
                  + counted g e')) as Hh.
  { intros e'. rewrite hashfull_eq
      by (rewrite table_with_table, length_insert; exact Hlen).
    rewrite table_with_table, generation8_with_table.
    rewrite take_insert_lt by exact Hi.
    rewrite (occupancy_insert _ _ _ e e' Htake). reflexivity. }
  unfold save_at. rewrite He. fold g.
  destruct (admits e k b d) eqn:Hadm.
  - rewrite (save_admitted _ _ _ _ _ _ _ Ha Hadm), bind_Done.
    eexists _, _. split; [reflexivity|]. split; [apply hashfull_eq, Hlen|].
    change (mret ?x) with x. rewrite Hh. f_equal.
    assert (counted g (mkTTEntry (u16 (k ≫ 48))
                         (if replaces_move e k m then u16 m else move16 e)
                         (i16 v) (u8 (Z.lor g b)) (i8 (d `quot` ONE_PLY))) = 1)
      as Hc.
    { unfold counted. cbv beta iota delta [genBound8].
      destruct (genBound_bits g b Hg Hb) as [Hrange Hbits].
      rewrite (u8_id (Z.lor g b)) by (change (2 ^ 8) with 256; exact Hrange).
      rewrite (proj1 (Hbits Hlow)), Z.eqb_refl. reflexivity. }
    rewrite Hc. subst g. lia.
  - rewrite (save_rejected _ _ _ _ _ _ _ Ha Hadm), bind_Done.
    eexists _, _. split; [reflexivity|]. split; [apply hashfull_eq, Hlen|].
    change (mret ?x) with x. rewrite Hh. f_equal.
    assert (counted g (if replaces_move e k m
                       then mkTTEntry (key16 e) (u16 m) (value16 e)
                                      (genBound8 e) (depth8 e)
                       else e) = counted g e) as Hc
      by (destruct (replaces_move e k m); reflexivity).
    rewrite Hc. subst g. lia.
Qed.

(** ** Further properties of [clear] and [resize] *)

Lemma trace_bind {A B : Type} (m : M A) (f : A -> M B) :
  trace (m ≫= f) =
  trace m ++ match outcome m with Done a => trace (f a) | _ => [] end.
Proof.
  unfold mbind, M_bind.
  destruct (outcome m); cbv beta iota delta [trace];
    [reflexivity| | |]; symmetry; apply app_nil_r.
Qed.

Lemma clear_worker_trace (n idx : Z) (tbl : list TTEntry) :
  trace (clear_worker n idx tbl) = worker_events n idx.
Proof.
  unfold clear_worker, worker_events. destruct (Threads >? 8); reflexivity.
Qed.

Lemma clear_workers_trace (n : Z) (idxs : list Z) :
  forall tbl tbl',
    outcome (clear_workers n idxs tbl) = Done tbl' ->
    trace (clear_workers n idxs tbl) = flat_map (worker_events n) idxs.
Proof.
  induction idxs as [|idx rest IH]; intros tbl tbl' Hout; [reflexivity|].
  cbn [clear_workers flat_map] in *.
  rewrite outcome_bind in Hout. rewrite trace_bind, clear_worker_trace.
  destruct (outcome (clear_worker n idx tbl)) as [tbl1| | |];
    try discriminate Hout.
  rewrite bind_Done in Hout. rewrite (IH tbl1 tbl' Hout). reflexivity.
Qed.

Lemma join_all_trace (idxs : list Z) : trace (join_all idxs) = map EvJoin idxs.
Proof.
  induction idxs as [|idx rest IH]; [reflexivity|].
  cbn [join_all map]. rewrite trace_bind. cbn [emit trace outcome app].
  rewrite IH. reflexivity.
Qed.

Lemma clear_trace (t : TranspositionTable) :
  1 <= Threads ->
  Z.of_nat (length (table t)) = entryCount t ->
  entryCount t < 2 ^ size_bits ->
  trace (clear t) = clear_events (entryCount t).
Proof.
  intros HT Hlen Hn. pose proof (clear_zeroes t HT Hlen Hn) as Hout.
  unfold clear in *. rewrite outcome_bind in Hout. rewrite trace_bind.
  destruct (outcome (clear_workers (entryCount t) thread_indices (table t)))
    as [tbl| | |] eqn:Hw; try discriminate Hout.
  rewrite (clear_workers_trace _ _ _ _ Hw), trace_bind, join_all_trace.
  rewrite join_all_outcome. unfold clear_events.
  cbv beta iota delta [trace mret M_ret]. rewrite app_nil_r. reflexivity.
Qed.

Lemma slice_inside (n idx : Z) :
  1 <= Threads -> 0 <= n < 2 ^ size_bits -> 0 <= idx < Threads ->
  0 <= clear_start n idx /\ 0 <= clear_len n idx
  /\ clear_start n idx + clear_len n idx <= n.
Proof.
  intros HT Hn Hidx.
  destruct (clear_slice_exact n idx HT Hn Hidx) as (_ & Hst & Hln).
  destruct (stride_facts n HT ltac:(lia)) as [Hs Hmul].
  assert (n / Threads * idx <= n / Threads * (Threads - 1))
    by (apply Z.mul_le_mono_nonneg_l; lia).
  assert (0 <= n / Threads * idx) by nia.
  rewrite Hst, Hln. destruct (idx =? Threads - 1); lia.
Qed.

Lemma In_thread_indices (idx : Z) :
  In idx thread_indices <-> 0 <= idx < Threads.
Proof.
  unfold thread_indices. rewrite <- list_elem_of_In, elem_of_seqZ. lia.
Qed.

(** X14.  [clear] on a table of [entryCount] entries, with at least one
    worker thread, never writes outside the table: every [memset] it issues
    lies within [0, entryCount).  A worker binds itself to a processor exactly
    when there are more than 8 threads, and every worker started is joined. *)
Theorem clear_stays_inside (t : TranspositionTable) :
  1 <= Threads ->
  Z.of_nat (length (table t)) = entryCount t ->
  entryCount t < 2 ^ size_bits ->
  (forall start len,
     In (EvMemset start len) (trace (clear t)) ->
     0 <= start /\ 0 <= len /\ start + len <= entryCount t)
  /\ (forall idx,
        In (EvBindThisThread idx) (trace (clear t)) <->
        8 < Threads /\ 0 <= idx < Threads)
  /\ (forall idx, In (EvJoin idx) (trace (clear t)) <-> 0 <= idx < Threads).
Proof.
  intros HT Hlen Hn. rewrite (clear_trace t HT Hlen Hn). unfold clear_events.
  assert (forall ev idx, In ev (worker_events (entryCount t) idx) <->
            ((Threads >? 8) = true /\ ev = EvBindThisThread idx)
            \/ ev = EvMemset (clear_start (entryCount t) idx)
                             (clear_len (entryCount t) idx)) as Hw.
  { intros ev idx. unfold worker_events. destruct (Threads >? 8); cbn [app In].
    - split.
      + intros [H|[H|[]]]; [left|right]; auto.
      + intros [[_ H]|H]; [left|right; left]; auto.
    - split.
      + intros [H|[]]. right. auto.
      + intros [[H _]|H]; [discriminate H|left; auto]. }
  assert (forall ev, In ev (map EvJoin thread_indices) <->
            exists idx, ev = EvJoin idx /\ 0 <= idx < Threads) as Hj.
  { intros ev. rewrite in_map_iff. split.
    - intros (idx & <- & Hin). exists idx. split; [reflexivity|].
      apply In_thread_indices, Hin.
    - intros (idx & -> & Hin). exists idx. split; [reflexivity|].
      apply In_thread_indices, Hin. }
  split; [|split].
  - intros start len Hin. apply in_app_iff in Hin as [Hin|Hin].
    + apply in_flat_map in Hin as (idx & Hidx & Hev).
      apply In_thread_indices in Hidx.
      apply Hw in Hev as [[_ Hev]|Hev]; [discriminate Hev|].
      injection Hev as -> ->.
      apply slice_inside; [exact HT|lia|exact Hidx].
    + apply Hj in Hin as (idx & Hev & _). discriminate Hev.
  - intros idx. rewrite in_app_iff, in_flat_map. split.
    + intros [(idx' & Hidx & Hev)|Hin].
      * apply In_thread_indices in Hidx.
        apply Hw in Hev as [[HT8 Hev]|Hev]; [|discriminate Hev].
        injection Hev as ->. split; [|exact Hidx].
        apply Z.gtb_lt in HT8. lia.
      * apply Hj in Hin as (idx' & Hev & _). discriminate Hev.
    + intros [HT8 Hidx]. left. exists idx.
      split; [apply In_thread_indices, Hidx|]. apply Hw. left.
      split; [apply Z.gtb_lt; lia|reflexivity].
  - intros idx. rewrite in_app_iff, in_flat_map. split.
    + intros [(idx' & Hidx & Hev)|Hin].
      * apply Hw in Hev as [[_ Hev]|Hev]; discriminate Hev.
      * apply Hj in Hin as (idx' & Hev & Hidx). injection Hev as ->.
        exact Hidx.
    + intros Hidx. right. apply Hj. exists idx. split; [reflexivity|exact Hidx].
Qed.

Lemma memset_zero_length (tbl tbl' : list TTEntry) (start len : Z) :
  memset_zero tbl start len = Done tbl' -> length tbl' = length tbl.
Proof.
  intros Hm. pose proof Hm as Hm'. unfold memset_zero in Hm'.
  destruct ((0 <=? start) && (0 <=? len)
            && (start + len <=? Z.of_nat (length tbl))) eqn:Hc;
    [|discriminate Hm'].
  rewrite !andb_true_iff, !Z.leb_le in Hc. destruct Hc as [[Hs Hl] Hb].
  destruct (memset_zero_spec tbl start len Hs Hl Hb) as (tbl'' & Hm'' & Hlen & _).
  congruence.
Qed.

Lemma clear_workers_length (n : Z) (idxs : list Z) :
  forall tbl tbl',
    outcome (clear_workers n idxs tbl) = Done tbl' ->
    length tbl' = length tbl.
Proof.
  induction idxs as [|idx rest IH]; intros tbl tbl' Hout.
  - injection Hout as <-. reflexivity.
  - cbn [clear_workers] in Hout.
    rewrite outcome_bind, clear_worker_outcome in Hout.
    destruct (memset_zero tbl (clear_start n idx) (clear_len n idx))
      as [tbl1| | |] eqn:Hm; try discriminate Hout.
    rewrite bind_Done in Hout. rewrite (IH tbl1 tbl' Hout).
    apply (memset_zero_length _ _ _ _ Hm).
Qed.

Lemma clear_shape (t t' : TranspositionTable) :
  outcome (clear t) = Done t' ->
  generation8 t' = generation8 t /\ entryCount t' = entryCount t
  /\ length (table t') = length (table t).
Proof.
  intros Hout. unfold clear in Hout. rewrite outcome_bind in Hout.
  destruct (outcome (clear_workers (entryCount t) thread_indices (table t)))
    as [tbl| | |] eqn:Hw; try discriminate Hout.
  rewrite bind_Done, outcome_bind, join_all_outcome, bind_Done in Hout.
  injection Hout as <-. repeat split.
  rewrite table_with_table. apply (clear_workers_length _ _ _ _ Hw).
Qed.

Lemma save_at_shape (t t' : TranspositionTable) (i : nat) (k v b d m : Z) :
  save_at t i k v b d m = Done t' ->
  generation8 t' = generation8 t /\ entryCount t' = entryCount t
  /\ length (table t') = length (table t).
Proof.
  unfold save_at. destruct (table t !! i) as [e|]; [|discriminate].
  destruct (save (generation8 t) e k v b d m) as [e'| | |]; try discriminate.
  rewrite bind_Done. intros [= <-]. repeat split.
  rewrite table_with_table. apply length_insert.
Qed.

Lemma probe_shape (t t' : TranspositionTable) (key : Z) (r : nat * bool) :
  probe t key = Done (t', r) ->
  generation8 t' = generation8 t /\ entryCount t' = entryCount t
  /\ length (table t') = length (table t).
Proof.
  destruct (table t !! entry (entryCount t) key) as [e|] eqn:He.
  - rewrite (probe_uniform t key e He). intros [= <- _]. repeat split.
    rewrite table_with_table. apply length_insert.
  - unfold probe. rewrite He. discriminate.
Qed.

Lemma resize_outcome (t : TranspositionTable) (mbSize : Z) :
  outcome (resize t mbSize) =
  _ ← assert (CacheLineSize `mod` sizeof_TTEntry =? 0);
  if malloc_succeeds (resize_bytes mbSize)
  then outcome (clear (mkTT (resize_entryCount mbSize)
                            (malloc_contents
                               <$> seq 0 (Z.to_nat (resize_entryCount mbSize)))
                            (generation8 t)))
  else Exited EXIT_FAILURE.
Proof.
  unfold resize.
  destruct (assert (CacheLineSize `mod` sizeof_TTEntry =? 0)) as [[]| | |];
    try reflexivity.
  destruct (malloc_succeeds (resize_bytes mbSize)); reflexivity.
Qed.

(** X15.  No operation changes the generation, and none but [resize] changes
    the number of entries: when a call returns, [generation8] is what it was,
    and for [save], [probe], [hashfull] and [clear] so are [entryCount] and
    the size of the table. *)
Theorem operations_keep_shape (op : Operation) (t t' : TranspositionTable)
  (a : Answer) :
  outcome (exec op t) = Done (t', a) ->
  generation8 t' = generation8 t
  /\ ((forall mbSize, op <> OpResize mbSize) ->
      entryCount t' = entryCount t /\ length (table t') = length (table t)).
Proof.
  destruct op as [i k v b d m|key| | |mbSize]; cbn [exec];
    rewrite outcome_bind; intros Hout.
  - cbv beta iota delta [lift outcome] in Hout.
    destruct (save_at t i k v b d m) as [t1| | |] eqn:Hs; try discriminate Hout.
    rewrite bind_Done in Hout. injection Hout as <- _.
    destruct (save_at_shape _ _ _ _ _ _ _ _ Hs) as (Hg & Hn & Hl). auto.
  - cbv beta iota delta [lift outcome] in Hout.
    destruct (probe t key) as [[t1 [i found]]| | |] eqn:Hp;
      try discriminate Hout.
    rewrite bind_Done in Hout. injection Hout as <- _.
    destruct (probe_shape _ _ _ _ Hp) as (Hg & Hn & Hl). auto.
  - cbv beta iota delta [lift outcome] in Hout.
    destruct (hashfull t) as [n| | |]; try discriminate Hout.
    rewrite bind_Done in Hout. injection Hout as <- _. auto.
  - destruct (outcome (clear t)) as [t1| | |] eqn:Hc; try discriminate Hout.
    rewrite bind_Done in Hout. injection Hout as <- _.
    destruct (clear_shape _ _ Hc) as (Hg & Hn & Hl). auto.
  - split; [|intros Hne; exfalso; exact (Hne mbSize eq_refl)].
    destruct (outcome (resize t mbSize)) as [t1| | |] eqn:Hr;
      try discriminate Hout.
    rewrite bind_Done in Hout. injection Hout as <- _.
    rewrite resize_outcome in Hr.
    destruct (assert (CacheLineSize `mod` sizeof_TTEntry =? 0)) as [[]| | |];
      try discriminate Hr.
    rewrite bind_Done in Hr.
    destruct (malloc_succeeds (resize_bytes mbSize)); [|discriminate Hr].
    destruct (clear_shape _ _ Hr) as (Hg & _). exact Hg.
Qed.

(** X16.  A [resize] that gets its memory waits for the search, frees the old
    block and allocates once, in that order, before the workers of [clear]
    run; it leaves a table of zeroed entries in the generation it had,
    whatever the old table and the fresh block held, so every probe that
    follows is a miss. *)
Theorem resize_leaves_zeroed_table (t : TranspositionTable) (mbSize : Z) :
  1 <= Threads ->
  0 <= size_bits ->
  asserted (CacheLineSize `mod` sizeof_TTEntry =? 0) ->
  malloc_succeeds (resize_bytes mbSize) = true ->
  exists t',
    outcome (resize t mbSize) = Done t'
    /\ trace (resize t mbSize) =
       [EvWaitForSearchFinished; EvFree; EvMalloc (resize_bytes mbSize)]
       ++ clear_events (entryCount t')
    /\ generation8 t' = generation8 t
    /\ Z.of_nat (length (table t')) = entryCount t'
    /\ (forall i e, table t' !! i = Some e -> e = zero_entry)
    /\ (forall key t'' i found,
          probe t' key = Done (t'', (i, found)) -> found = false).
Proof.
  intros HT Hw Ha Hmalloc.
  pose proof (resize_entryCount_range mbSize Hw) as Hrange.
  set (n := resize_entryCount mbSize) in *.
  exists (mkTT n (replicate (Z.to_nat n) zero_entry) (generation8 t)).
  split; [apply resize_success; assumption|].
  set (t0 := mkTT n (malloc_contents <$> seq 0 (Z.to_nat n)) (generation8 t)).
  assert (Z.of_nat (length (table t0)) = entryCount t0) as Hlen.
  { unfold t0. cbv beta iota delta [table entryCount].
    rewrite length_fmap, length_seq. lia. }
  assert (trace (resize t mbSize) =
          [EvWaitForSearchFinished; EvFree; EvMalloc (resize_bytes mbSize)]
          ++ trace (clear t0)) as Htr.
  { unfold resize. rewrite (assert_asserted _ Ha), Hmalloc. reflexivity. }
  split.
  { rewrite Htr, (clear_trace t0 HT Hlen) by (unfold t0; cbn [entryCount]; lia).
    reflexivity. }
  split; [reflexivity|]. split.
  { cbv beta iota delta [table entryCount]. rewrite length_replicate. lia. }
  split.
  { intros i e He. cbv beta iota delta [table] in He.
    apply lookup_replicate_1 in He as [-> _]. reflexivity. }
  intros key t'' i found Hp.
  destruct (table (mkTT n (replicate (Z.to_nat n) zero_entry) (generation8 t))
              !! entry n key) as [e|] eqn:He.
  - assert (e = zero_entry) as ->
      by (cbv beta iota delta [table] in He;
          apply lookup_replicate_1 in He as [-> _]; reflexivity).
    rewrite (probe_eq _ key zero_entry He) in Hp.
    injection Hp as _ _ <-. reflexivity.
  - unfold probe in Hp. cbv beta iota delta [entryCount] in Hp.
    rewrite He in Hp. discriminate Hp.
Qed.

Lemma size_t_minus_1 (x : Z) : size_t (size_t x - 1) = size_t (x - 1).
Proof. unfold size_t. apply Zminus_mod_idemp_l. Qed.

(** X17.  The table starts at the first multiple of the cache line size at
    or after the block [malloc] returned, less than a cache line further, so
    the [CacheLineSize - 1] bytes asked for in excess keep all the entries
    inside the block.  The cache line size is a power of two and the block
    ends inside the address space. *)
Theorem table_address_aligned (mem c mbSize : Z) :
  0 <= size_bits ->
  0 <= c ->
  CacheLineSize = 2 ^ c ->
  0 <= sizeof_TTEntry ->
  0 <= mem ->
  mem + (resize_entryCount mbSize * sizeof_TTEntry + CacheLineSize - 1)
    < 2 ^ size_bits ->
  table_address mem `mod` CacheLineSize = 0
  /\ mem <= table_address mem <= mem + CacheLineSize - 1
  /\ table_address mem + resize_entryCount mbSize * sizeof_TTEntry
     <= mem + resize_bytes mbSize.
Proof.
  intros Hw Hc HC Hsz Hmem Hfit.
  assert (0 < CacheLineSize) as Hpos by (rewrite HC; apply Z.pow_pos_nonneg; lia).
  pose proof (resize_entryCount_range mbSize Hw) as Hrange.
  assert (0 <= resize_entryCount mbSize * sizeof_TTEntry) as Hn
    by (apply Z.mul_nonneg_nonneg; lia).
  assert (resize_bytes mbSize =
          resize_entryCount mbSize * sizeof_TTEntry + CacheLineSize - 1)
    as Hbytes.
  { unfold resize_bytes. rewrite size_t_minus_1.
    rewrite (size_t_id (resize_entryCount mbSize * sizeof_TTEntry)) by lia.
    apply size_t_id. lia. }
  rewrite Hbytes.
  set (x := mem + CacheLineSize - 1).
  assert (table_address mem = x / CacheLineSize * CacheLineSize) as Haddr.
  { unfold table_address. rewrite size_t_minus_1.
    replace (mem + CacheLineSize - 1) with x by reflexivity.
    rewrite (size_t_id x) by (unfold x; lia).
    unfold size_t. rewrite <- (Z.land_ones _ size_bits Hw).
    rewrite (Z.land_comm (Z.lnot _)), Z.land_assoc.
    rewrite (Z.land_ones x size_bits Hw), (Z.mod_small x) by (unfold x; lia).
    replace (CacheLineSize - 1) with (Z.ones c)
      by (rewrite Z.ones_equiv, HC; lia).
    rewrite <- Z.ldiff_land, Z.ldiff_ones_r by exact Hc.
    rewrite Z.shiftl_mul_pow2, Z.shiftr_div_pow2 by exact Hc.
    rewrite HC. reflexivity. }
  rewrite Haddr.
  pose proof (Z.mul_div_le x CacheLineSize Hpos).
  pose proof (Z.mul_succ_div_gt x CacheLineSize Hpos).
  split; [apply Z.mod_mul; lia|]. unfold x in *. lia.
Qed.

End TT.

(** ** The statements on concrete tables

    The build evaluated has [ONE_PLY] = 1, [BOUND_EXACT] = 3 (and 2 for a lower
    bound), assertions compiled in, a 64-bit [size_t], entries of 8 bytes and
    cache lines of 64 bytes. *)

Lemma save_then_probe_roundtrip_witness :
  roundtrip 1 3 false mulhi_entry (zeroed_table 4 4) sample_key 100 4 77.
Proof.
  apply (save_then_probe_roundtrip 1 3 false mulhi_entry (zeroed_table 4 4)
           sample_key 100 4 77 zero_entry).
  - reflexivity.
  - unfold sample_key. lia.
  - by_evaluation.
  - reflexivity.
  - by_evaluation.
  - lia.
  - lia.
  - left. discriminate.
Defined.

(** C1 as stated fails in two ways: a fingerprint whose high 16 bits are zero
    is stored with tag 0 and is never found again, and a null move saved over
    an entry of the same fingerprint leaves the move already stored. *)
Lemma save_then_probe_roundtrip_counterexample :
  ~ roundtrip 1 3 false mulhi_entry (zeroed_table 4 4) 5 100 4 77
  /\ ~ roundtrip 1 3 false mulhi_entry sample_table sample_key 50 12 0.
Proof.
  split.
  - intros [e [H _]]. vm_compute in H. discriminate H.
  - intros [e (H & _ & _ & Hm)]. vm_compute in H. injection H as <-.
    vm_compute in Hm. discriminate Hm.
Qed.

Lemma save_exact_kept_below_margin_witness :
  exists e',
    save 1 3 false 4 sample_entry sample_key 50 2 3 0 = Done e'
    /\ (3 `quot` 1 <= depth8 sample_entry - 4 -> keeps_score sample_entry e')
    /\ (3 `quot` 1 > depth8 sample_entry - 4 ->
        takes_score 1 4 e' sample_key 50 2 3).
Proof.
  apply (save_exact_kept_below_margin 1 3 false 4 sample_entry sample_key
           50 2 3 0).
  - reflexivity.
  - reflexivity.
  - reflexivity.
  - discriminate.
Defined.

(** C2 as stated fails: a lower-bound save at the stored depth, which does not
    exceed it by more than 4 plies, overwrites the value of an EXACT entry of
    the same fingerprint. *)
Lemma save_exact_kept_below_margin_counterexample :
  key16 sample_entry = sample_key ≫ 48
  /\ bound sample_entry = 3
  /\ 2 <> 3
  /\ ~ (10 `quot` 1 > depth8 sample_entry + 4)
  /\ exists e',
       save 1 3 false 4 sample_entry sample_key 50 2 10 0 = Done e'
       /\ ~ keeps_score sample_entry e'.
Proof.
  split; [reflexivity|]. split; [reflexivity|]. split; [discriminate|].
  split; [vm_compute; intros H; discriminate H|].
  eexists. split; [vm_compute; reflexivity|].
  intros [Hv _]. vm_compute in Hv. discriminate Hv.
Qed.



Lemma probe_only_refreshes_witness :
  exists t' found e',
    probe mulhi_entry sample_table sample_key = Done (t', (2%nat, found))
    /\ (found = true <->
        key16 sample_entry <> 0 /\ key16 sample_entry = u16 (sample_key ≫ 48))
    /\ entryCount t' = 4 /\ generation8 t' = 4
    /\ length (table t') = 4%nat
    /\ (forall j, j <> 2%nat -> table t' !! j = table sample_table !! j)
    /\ table t' !! 2%nat = Some e'
    /\ key16 e' = key16 sample_entry /\ move16 e' = move16 sample_entry
    /\ value16 e' = value16 sample_entry /\ depth8 e' = depth8 sample_entry
    /\ (found = true -> genBound8 e' = Z.lor 4 (bound sample_entry))
    /\ (found = false -> key16 sample_entry <> 0 -> t' = sample_table)
    /\ (found = false -> key16 sample_entry = 0 ->
        genBound8 e' = Z.lor 4 (bound sample_entry)).
Proof.
  apply (probe_only_refreshes mulhi_entry sample_table sample_key sample_entry).
  - reflexivity.
  - by_evaluation.
Defined.

(** C4 as stated fails: the probe of an empty slot reports found = false and
    has written the genBound of the slot. *)
Lemma probe_only_refreshes_counterexample :
  exists t' i,
    probe mulhi_entry (zeroed_table 4 4) sample_key = Done (t', (i, false))
    /\ table t' <> table (zeroed_table 4 4).
Proof.
  eexists _, _. split; [vm_compute; reflexivity|].
  vm_compute. intros H. discriminate H.
Qed.

Lemma save_rejected_updates_move_witness :
  (key16 sample_entry = sample_key ≫ 48
   /\ 2 `quot` 1 < depth8 sample_entry /\ 2 <> 3)
  /\ exists e',
       save 1 3 false 4 sample_entry sample_key 50 2 2 78 = Done e'
       /\ move16 e' = 78 /\ key16 e' = key16 sample_entry
       /\ keeps_score sample_entry e'.
Proof.
  apply (save_rejected_updates_move 1 3 false 4 sample_entry sample_key
           50 2 2 78).
  - reflexivity.
  - lia.
  - discriminate.
  - reflexivity.
Defined.

Lemma clear_slices_partition_witness :
  (forall idx, 0 <= idx < 3 ->
     clear_start 64 3 10 idx = 10 / 3 * idx
     /\ clear_start 64 3 10 idx + clear_len 64 3 10 idx =
        if idx =? 3 - 1 then 10 else 10 / 3 * (idx + 1))
  /\ (forall idx1 idx2 i,
       0 <= idx1 < 3 -> 0 <= idx2 < 3 ->
       in_slice 64 3 10 idx1 i -> in_slice 64 3 10 idx2 i -> idx1 = idx2)
  /\ (forall i, 0 <= i < 10 <->
                exists idx, 0 <= idx < 3 /\ in_slice 64 3 10 idx i).
Proof.
  apply (clear_slices_partition 64 3 10).
  - lia.
  - lia.
Defined.

Lemma resize_sets_entryCount_witness :
  exists t',
    outcome (resize false 64 1 8 64 (fun _ => true) (fun _ => sample_entry)
                    sample_table 1) = Done t'
    /\ entryCount t' = 1 * 2 ^ 20 / 8
    /\ Z.of_nat (length (table t')) = entryCount t'
    /\ (8 = 8 -> 1 = 1 -> entryCount t' = 131072).
Proof.
  apply (resize_sets_entryCount false 64 1 8 64 (fun _ => true)
           (fun _ => sample_entry) sample_table 1).
  - lia.
  - lia.
  - lia.
  - lia.
  - reflexivity.
  - reflexivity.
Defined.

(** C7 as stated fails where the product leaves [size_t]: with 64 bits,
    [resize(2^44)] computes 2^64 bytes as 0, is given the 63 bytes it asks
    for, and leaves entryCount = 0. *)
Lemma resize_sets_entryCount_counterexample :
  exists t',
    outcome (resize false 64 1 8 64 (fun _ => true) (fun _ => sample_entry)
                    sample_table (2 ^ 44)) = Done t'
    /\ entryCount t' = 0
    /\ entryCount t' <> 2 ^ 44 * 2 ^ 20 / 8.
Proof.
  eexists. split; [vm_compute; reflexivity|]. split; [reflexivity|].
  vm_compute. intros H. discriminate H.
Qed.

Lemma clear_then_hashfull_zero_witness :
  exists t', outcome (clear 64 2 full_table) = Done t' /\ hashfull t' = Done 0.
Proof.
  apply (clear_then_hashfull_zero 64 2 full_table).
  - lia.
  - reflexivity.
  - by_evaluation.
  - by_evaluation.
  - by_evaluation.
Defined.

Lemma probe_marks_empty_slot_witness :
  exists t' e' n,
    probe mulhi_entry (zeroed_table 1000 4) sample_key
      = Done (t', (604%nat, false))
    /\ table t' !! 604%nat = Some e'
    /\ genBound8 e' = Z.lor 4 (bound zero_entry)
    /\ (genBound8 zero_entry = 0 -> genBound8 e' = 4)
    /\ counted (generation8 t') e' = 1
    /\ hashfull (zeroed_table 1000 4) = Done n
    /\ hashfull t' = Done (n + (1 - counted 4 zero_entry))
    /\ 1 <= n + (1 - counted 4 zero_entry).
Proof.
  apply (probe_marks_empty_slot mulhi_entry (zeroed_table 1000 4) sample_key
           zero_entry).
  - by_evaluation.
  - reflexivity.
  - by_evaluation.
  - reflexivity.
  - vm_compute. lia.
  - vm_compute. lia.
Defined.

Lemma resize_failure_is_the_only_exit_witness :
  resize false 64 1 8 64 (fun _ => false) (fun _ => sample_entry)
         sample_table 16 =
    mkM [EvWaitForSearchFinished; EvFree; EvMalloc (resize_bytes 64 8 64 16);
         EvCerr [Text "Failed to allocate "; Number 16;
                 Text "MB for transposition table."; Endl];
         EvExit EXIT_FAILURE]
        (Exited EXIT_FAILURE)
  /\ outcome (exec 1 3 false mulhi_entry 64 1 8 64 (fun _ => false)
                   (fun _ => sample_entry) (OpResize 16) sample_table)
     = Exited EXIT_FAILURE.
Proof.
  apply (proj1 (resize_failure_is_the_only_exit 1 3 false mulhi_entry 64 1 8 64
                  (fun _ => false) (fun _ => sample_entry))).
  - reflexivity.
  - reflexivity.
Defined.

(** ** The further properties on concrete tables *)

Lemma save_stores_tag_witness :
  exists e',
    save 1 3 false 4 sample_entry sample_key 50 2 3 78 = Done e'
    /\ key16 e' = sample_key ≫ 48.
Proof.
  apply (save_stores_tag 1 3 false 4 sample_entry sample_key 50 2 3 78).
  - reflexivity.
  - unfold sample_key. lia.
Defined.

Lemma save_move_rule_witness :
  exists e',
    save 1 3 false 4 sample_entry sample_key 50 2 3 0 = Done e'
    /\ (0 = 0 -> key16 sample_entry = sample_key ≫ 48 ->
        move16 e' = move16 sample_entry)
    /\ (0 <> 0 \/ key16 sample_entry <> sample_key ≫ 48 -> move16 e' = u16 0).
Proof.
  apply (save_move_rule 1 3 false 4 sample_entry sample_key 50 2 3 0).
  reflexivity.
Defined.

Lemma save_other_position_overwrites_witness :
  save 1 3 false 4 sample_entry other_key 50 2 3 0
  = Done (written 1 4 other_key 50 2 3 0).
Proof.
  apply (save_other_position_overwrites 1 3 false 4 sample_entry other_key
           50 2 3 0).
  - reflexivity.
  - by_evaluation.
Defined.

Lemma save_idempotent_witness :
  save 1 3 false 4 (mkTTEntry 0x1234 78 100 7 10) sample_key 50 2 3 78
  = Done (mkTTEntry 0x1234 78 100 7 10).
Proof.
  apply (save_idempotent 1 3 false 4 sample_entry
           (mkTTEntry 0x1234 78 100 7 10) sample_key 50 2 3 78).
  - unfold sample_key. lia.
  - by_evaluation.
Defined.

Lemma probe_idempotent_witness :
  exists t1 r,
    probe mulhi_entry (zeroed_table 4 4) sample_key = Done (t1, r)
    /\ probe mulhi_entry t1 sample_key = Done (t1, r).
Proof.
  apply (probe_idempotent mulhi_entry (zeroed_table 4 4) sample_key zero_entry).
  - reflexivity.
  - by_evaluation.
Defined.

Lemma probe_keeps_bounds_witness :
  exists t' r,
    probe mulhi_entry sample_table sample_key = Done (t', r)
    /\ forall j ej, table sample_table !! j = Some ej ->
         exists ej', table t' !! j = Some ej' /\ bound ej' = bound ej.
Proof.
  apply (probe_keeps_bounds mulhi_entry sample_table sample_key sample_entry).
  - reflexivity.
  - by_evaluation.
  - reflexivity.
Defined.

Lemma probe_zero_tag_never_found_witness :
  probe mulhi_entry sample_table 5 <> Done (sample_table, (0%nat, true)).
Proof.
  apply (probe_zero_tag_never_found mulhi_entry sample_table sample_table 5
           0%nat).
  reflexivity.
Defined.

Lemma save_then_probe_admitted_witness :
  exists e3,
    save_then_probe 1 3 false mulhi_entry (zeroed_table 4 4) sample_key
                    100 2 4 77 = Done (true, e3)
    /\ key16 e3 = sample_key ≫ 48
    /\ value e3 = 100 /\ depth 1 e3 = 4 /\ bound e3 = 2
    /\ Z.land (genBound8 e3) 252 = generation8 (zeroed_table 4 4)
    /\ move e3 = if replaces_move zero_entry sample_key 77 then 77
                 else move16 zero_entry.
Proof.
  apply (save_then_probe_admitted 1 3 false mulhi_entry (zeroed_table 4 4)
           sample_key 100 2 4 77 zero_entry).
  - reflexivity.
  - unfold sample_key. lia.
  - by_evaluation.
  - reflexivity.
  - by_evaluation.
  - lia.
  - lia.
  - lia.
  - by_evaluation.
  - reflexivity.
  - by_evaluation.
Defined.

Lemma save_then_probe_rejected_witness :
  exists e3,
    save_then_probe 1 3 false mulhi_entry sample_table sample_key 50 2 3 78
      = Done (true, e3)
    /\ key16 e3 = sample_key ≫ 48
    /\ value16 e3 = value16 sample_entry /\ depth8 e3 = depth8 sample_entry
    /\ bound e3 = bound sample_entry
    /\ Z.land (genBound8 e3) 252 = generation8 sample_table
    /\ move16 e3 = if 78 =? 0 then move16 sample_entry else 78.
Proof.
  apply (save_then_probe_rejected 1 3 false mulhi_entry sample_table
           sample_key 50 2 3 78 sample_entry).
  - reflexivity.
  - unfold sample_key. lia.
  - by_evaluation.
  - reflexivity.
  - lia.
  - by_evaluation.
  - reflexivity.
  - by_evaluation.
Defined.

Lemma clear_then_probe_misses_witness :
  exists t1,
    outcome (clear 64 2 full_table) = Done t1
    /\ forall key,
         (mulhi_entry (entryCount full_table) key
          < length (table full_table))%nat ->
         exists t2,
           probe mulhi_entry t1 key
           = Done (t2, (mulhi_entry (entryCount full_table) key, false)).
Proof.
  apply (clear_then_probe_misses mulhi_entry 64 2 full_table).
  - lia.
  - by_evaluation.
  - by_evaluation.
Defined.

Lemma hashfull_range_witness :
  exists n, hashfull full_table = Done n /\ 0 <= n <= 1000.
Proof.
  apply (hashfull_range full_table). vm_compute. lia.
Defined.

Lemma hashfull_short_table_witness : hashfull sample_table = OutOfBounds.
Proof.
  apply (hashfull_short_table sample_table). vm_compute. lia.
Defined.

Lemma save_at_hashfull_witness :
  exists t' n,
    save_at 1 3 false (zeroed_table 1000 4) 604 sample_key 100 3 4 77 = Done t'
    /\ hashfull (zeroed_table 1000 4) = Done n
    /\ hashfull t' =
       Done (if admits 1 3 zero_entry sample_key 3 4
             then n + (1 - counted (generation8 (zeroed_table 1000 4))
                                   zero_entry)
             else n).
Proof.
  apply (save_at_hashfull 1 3 false (zeroed_table 1000 4) 604 sample_key
           100 3 4 77 zero_entry).
  - by_evaluation.
  - vm_compute. lia.
  - vm_compute. lia.
  - reflexivity.
  - by_evaluation.
  - reflexivity.
  - lia.
Defined.

Lemma clear_stays_inside_witness :
  (forall start len,
     In (EvMemset start len) (trace (clear 64 9 full_table)) ->
     0 <= start /\ 0 <= len /\ start + len <= entryCount full_table)
  /\ (forall idx,
        In (EvBindThisThread idx) (trace (clear 64 9 full_table)) <->
        8 < 9 /\ 0 <= idx < 9)
  /\ (forall idx,
        In (EvJoin idx) (trace (clear 64 9 full_table)) <-> 0 <= idx < 9).
Proof.
  apply (clear_stays_inside 64 9 full_table).
  - lia.
  - by_evaluation.
  - by_evaluation.
Defined.

Lemma operations_keep_shape_witness :
  generation8 (mkTT 4 [zero_entry; zero_entry; mkTTEntry 0x1234 78 50 7 12;
                       zero_entry] 4)
  = generation8 sample_table
  /\ ((forall mbSize, OpSave 2 sample_key 50 3 12 78 <> OpResize mbSize) ->
      entryCount (mkTT 4 [zero_entry; zero_entry; mkTTEntry 0x1234 78 50 7 12;
                          zero_entry] 4)
      = entryCount sample_table
      /\ length (table (mkTT 4 [zero_entry; zero_entry;
                                mkTTEntry 0x1234 78 50 7 12; zero_entry] 4))
         = length (table sample_table)).
Proof.
  apply (operations_keep_shape 1 3 false mulhi_entry 64 1 8 64
           (fun _ => true) (fun _ => sample_entry)
           (OpSave 2 sample_key 50 3 12 78) sample_table _ AnsVoid).
  by_evaluation.
Defined.

Lemma resize_leaves_zeroed_table_witness :
  exists t',
    outcome (resize false 64 1 8 64 (fun _ => true) (fun _ => sample_entry)
                    sample_table 1) = Done t'
    /\ trace (resize false 64 1 8 64 (fun _ => true) (fun _ => sample_entry)
                     sample_table 1) =
       [EvWaitForSearchFinished; EvFree; EvMalloc (resize_bytes 64 8 64 1)]
       ++ clear_events 64 1 (entryCount t')
    /\ generation8 t' = generation8 sample_table
    /\ Z.of_nat (length (table t')) = entryCount t'
    /\ (forall i e, table t' !! i = Some e -> e = zero_entry)
    /\ (forall key t'' i found,
          probe mulhi_entry t' key = Done (t'', (i, found)) -> found = false).
Proof.
  apply (resize_leaves_zeroed_table false mulhi_entry 64 1 8 64
           (fun _ => true) (fun _ => sample_entry) sample_table 1).
  - lia.
  - lia.
  - reflexivity.
  - reflexivity.
Defined.

Lemma table_address_aligned_witness :
  table_address 64 64 1000 `mod` 64 = 0
  /\ 1000 <= table_address 64 64 1000 <= 1000 + 64 - 1
  /\ table_address 64 64 1000 + resize_entryCount 64 8 1 * 8
     <= 1000 + resize_bytes 64 8 64 1.
Proof.
  apply (table_address_aligned 64 8 64 1000 6 1).
  - lia.
  - lia.
  - reflexivity.
  - lia.
  - lia.
  - by_evaluation.
Defined.
